(** * ThreadPool: a shallow embedding of threadpool.h / threadpool.cpp

    The pool is modelled sequentially: every function below is one
    uninterrupted run of the corresponding C++ code between two points at
    which the thread can be suspended (a condition-variable wait, or the
    end of the function).  What another thread may have done in between is
    whatever state the next function is applied to. *)

From Stdlib Require Import ZArith Bool Lia.
From stdpp Require Import base list strings gmap.

Local Open Scope Z_scope.

(** ** Machine integers *)

Module Int32.

Definition INT32_MAX : Z := 2147483647.
Definition INT32_MIN : Z := -2147483648.

Definition in_range (z : Z) : Prop := INT32_MIN <= z <= INT32_MAX.

(** Two's complement wrap-around: what [++] and [--] do on a
    [std::atomic_int]. *)
Definition wrap (z : Z) : Z := (z + 2 ^ 31) mod 2 ^ 32 - 2 ^ 31.

(** Conversion of an [int] to [size_t] (64 bits). *)
Definition to_size_t (z : Z) : Z := z mod 2 ^ 64.

End Int32.

(** ** Outcomes of a run

    [Done a]: the code ran to its end and produced [a].
    [Blocks]: the thread cannot go on from here (it is suspended in a
    wait, or its function has returned); nothing was changed.
    [Undefined]: the C++ code has no defined behaviour here (signed
    overflow of a plain [int], dereference of a null pointer). *)

Inductive outcome (A : Type) : Type :=
| Done (a : A)
| Blocks
| Undefined.

Arguments Done {A} a.
Arguments Blocks {A}.
Arguments Undefined {A}.

Definition bind {A B : Type} (m : outcome A) (k : A -> outcome B) : outcome B :=
  match m with
  | Done a => k a
  | Blocks => Blocks
  | Undefined => Undefined
  end.

Declare Scope outcome_scope.
Delimit Scope outcome_scope with outcome.
Notation "'let*' x ':=' m 'in' k" :=
  (bind m (fun x => k))
  (at level 10, x pattern, m at level 100, k at level 200)
  : outcome_scope.
Local Open Scope outcome_scope.

(** ** Any

    [Any] owns a [Base] pointer that is either null or points to a
    [Derive<T>] holding one [data_ : T]. *)

Module Any.

Definition Derive : Type := { T : Type & T }.

Record t : Type := mk { base_ : option Derive }.

(** [Any() = default] *)
Definition empty : t := mk None.

(** [template<typename T> Any(T data)] *)
Definition of_data {T : Type} (data : T) : t := mk (Some (existT T data)).

End Any.

(** ** Semaphore *)

Module Semaphore.

Record t : Type := mk { isExit_ : bool; resLimit_ : Z }.

(** [Semaphore(int limit = 0)] *)
Definition init (limit : Z) : t := mk false limit.

(** [~Semaphore()] *)
Definition destroy (s : t) : t := mk true (resLimit_ s).

(** [wait()]: returns at once when [isExit_] is set; otherwise stays in
    [cond_.wait] while [resLimit_ <= 0], and decrements once it is
    positive. *)
Definition wait (s : t) : outcome t :=
  if isExit_ s then Done s
  else if resLimit_ s <=? 0 then Blocks
  else Done (mk (isExit_ s) (resLimit_ s - 1)).

(** [post()]: returns at once when [isExit_] is set; otherwise
    [++resLimit_] on a plain [int], which overflows at [INT32_MAX]. *)
Definition post (s : t) : outcome t :=
  if isExit_ s then Done s
  else if resLimit_ s =? Int32.INT32_MAX then Undefined
  else Done (mk (isExit_ s) (resLimit_ s + 1)).

(** A history of calls on one semaphore, made by any threads. *)
Inductive op : Type := Wait | Post | Destroy.

Definition step (o : op) (s : t) : outcome t :=
  match o with
  | Wait => wait s
  | Post => post s
  | Destroy => Done (destroy s)
  end.

(** A call that blocks leaves the semaphore as it is; the history goes
    on with the calls of the other threads. *)
Fixpoint run (ops : list op) (s : t) : option t :=
  match ops with
  | [] => Some s
  | o :: ops' =>
      match step o s with
      | Done s' => run ops' s'
      | Blocks => run ops' s
      | Undefined => None
      end
  end.

Fixpoint posts (ops : list op) : Z :=
  match ops with
  | [] => 0
  | Post :: ops' => 1 + posts ops'
  | _ :: ops' => posts ops'
  end.

(** The waits of a history that returned with a resource taken. *)
Fixpoint acquired (ops : list op) (s : t) : Z :=
  match ops with
  | [] => 0
  | o :: ops' =>
      match step o s with
      | Done s' =>
          match o with
          | Wait => if isExit_ s then 0 else 1
          | _ => 0
          end + acquired ops' s'
      | Blocks => acquired ops' s
      | Undefined => 0
      end
  end.

End Semaphore.

(** ** Shared objects

    [std::shared_ptr<Task>] and [std::shared_ptr<Result>] are addresses
    into two stores of objects; a null pointer is [None].  Every holder of
    the same address sees the same object. *)

Abbreviation loc := nat (only parsing).

(** ** Result *)

Module Result.

Record t : Type := mk { any_ : Any.t; sem_ : Semaphore.t; isValid_ : bool }.

(** [Result(bool isValid = true)] *)
Definition init (isValid : bool) : t :=
  mk Any.empty (Semaphore.init 0) isValid.

(** What [return "";] builds: an [Any] made from the [const char*]
    literal. *)
Definition invalid_value : Any.t := Any.of_data (T := string) "".

(** [get()]; [std::move(any_)] leaves [any_] with a null [base_]. *)
Definition get (r : t) : outcome (Any.t * t) :=
  if negb (isValid_ r) then Done (invalid_value, r)
  else
    let* sem' := Semaphore.wait (sem_ r) in
    Done (any_ r, mk Any.empty sem' (isValid_ r)).

(** [setVal(any)] *)
Definition setVal (any : Any.t) (r : t) : outcome t :=
  let* sem' := Semaphore.post (sem_ r) in
  Done (mk any sem' (isValid_ r)).

(** The same two calls through a [shared_ptr<Result>]. *)
Definition get_at (res : loc) (results : list t) : outcome (Any.t * list t) :=
  match results !! res with
  | None => Undefined
  | Some r =>
      let* (v, r') := get r in
      Done (v, <[res := r']> results)
  end.

Definition setVal_at (res : loc) (any : Any.t) (results : list t) : outcome (list t) :=
  match results !! res with
  | None => Undefined
  | Some r =>
      let* r' := setVal any r in
      Done (<[res := r']> results)
  end.

End Result.

(** ** Task

    [run] is the user's override of the pure virtual [run()]: it may read
    and change anything the user's program can reach, which is the
    [World]. *)

Module Task.

Record t (World : Type) : Type :=
  mk { run : World -> Any.t * World; result_ : option loc }.

Arguments mk {World} run result_.
Arguments run {World} _ _.
Arguments result_ {World} _.

(** [Task() : result_(nullptr)] *)
Definition init {World : Type} (run : World -> Any.t * World) : t World :=
  mk run None.

(** [setResult(res)] *)
Definition setResult {World : Type} (res : option loc) (task : t World) : t World :=
  mk (run task) res.

(** [exec()] *)
Definition exec {World : Type} (task : t World)
    (results : list Result.t) (w : World) : outcome (list Result.t * World) :=
  match result_ task with
  | Some res =>
      let '(v, w') := run task w in
      let* results' := Result.setVal_at res v results in
      Done (results', w')
  | None => Done (results, w)
  end.

End Task.

(** ** Thread, pool mode, observable events *)

Inductive PoolMode : Type := MODE_FIXED | MODE_CACHED.

Definition PoolMode_eqb (a b : PoolMode) : bool :=
  match a, b with
  | MODE_FIXED, MODE_FIXED | MODE_CACHED, MODE_CACHED => true
  | _, _ => false
  end.

(** The three condition variables of the pool. *)
Inductive CondVar : Type := notFull_ | notEmpty_ | exitCond_.

(** What a run leaves behind besides the new state: lines on the two
    console streams, broadcasts on a condition variable, and detached OS
    threads started on [threadFunc].  The lines that [threadFunc] prints
    carry the OS thread id and are left out. *)
Inductive Event : Type :=
| cerr (line : string)
| cout (line : string)
| notify_all (cv : CondVar)
| thread_start (threadId : Z).

Inductive cv_status : Type := no_timeout | timeout.

(** [cv.wait_for(lock, rel_time, pred)], which is
    [while (!pred()) if (wait_until(lock, t) == timeout) return pred();
     return true;]
    [woken] is [None] when the predicate is tried before any wait and
    [Some st] when the wait has just returned [st]. *)
Definition wait_for (woken : option cv_status) (pred : bool) : outcome bool :=
  if pred then Done true
  else match woken with
       | Some timeout => Done false
       | _ => Blocks
       end.

Module Thread.

Record t : Type := mk { threadId_ : Z }.

(** [Thread(func) : func_(func), threadId_(generateId_++)], on the
    static plain [int generateId_]; [func_] is always [threadFunc] bound
    to the pool. *)
Definition init (generateId_ : Z) : outcome (t * Z) :=
  if generateId_ =? Int32.INT32_MAX then Undefined
  else Done (mk generateId_, generateId_ + 1).

Definition getId (th : t) : Z := threadId_ th.

(** [start()]: a detached [std::thread t(func_, threadId_)]. *)
Definition start (th : t) : Event := thread_start (threadId_ th).

End Thread.

Definition TASK_MAX_THRESHOLD : Z := Int32.INT32_MAX.
Definition THREAD_MAX_THRESHOLD : Z := 1024.
Definition THREAD_MAX_IDLE_TIME : Z := 60.

(** ** ThreadPool *)

Module ThreadPool.

Record t : Type := mk {
  threads_ : gmap Z Thread.t;
  initThreadSize_ : Z;
  threadSizeThreshold_ : Z;
  curThreadSize_ : Z;
  idleThreadSize_ : Z;
  taskQue_ : list (option loc);
  taskSize_ : Z;
  taskQueMaxThreshold_ : Z;
  poolMode_ : PoolMode;
  isPoolRunning_ : bool
}.

(** Assignment to one member. *)
Definition set_threads_ (v : gmap Z Thread.t) (p : t) : t :=
  mk v (initThreadSize_ p) (threadSizeThreshold_ p) (curThreadSize_ p)
    (idleThreadSize_ p) (taskQue_ p) (taskSize_ p) (taskQueMaxThreshold_ p)
    (poolMode_ p) (isPoolRunning_ p).
Definition set_initThreadSize_ (v : Z) (p : t) : t :=
  mk (threads_ p) v (threadSizeThreshold_ p) (curThreadSize_ p)
    (idleThreadSize_ p) (taskQue_ p) (taskSize_ p) (taskQueMaxThreshold_ p)
    (poolMode_ p) (isPoolRunning_ p).
Definition set_threadSizeThreshold_ (v : Z) (p : t) : t :=
  mk (threads_ p) (initThreadSize_ p) v (curThreadSize_ p)
    (idleThreadSize_ p) (taskQue_ p) (taskSize_ p) (taskQueMaxThreshold_ p)
    (poolMode_ p) (isPoolRunning_ p).
Definition set_curThreadSize_ (v : Z) (p : t) : t :=
  mk (threads_ p) (initThreadSize_ p) (threadSizeThreshold_ p) v
    (idleThreadSize_ p) (taskQue_ p) (taskSize_ p) (taskQueMaxThreshold_ p)
    (poolMode_ p) (isPoolRunning_ p).
Definition set_idleThreadSize_ (v : Z) (p : t) : t :=
  mk (threads_ p) (initThreadSize_ p) (threadSizeThreshold_ p)
    (curThreadSize_ p) v (taskQue_ p) (taskSize_ p) (taskQueMaxThreshold_ p)
    (poolMode_ p) (isPoolRunning_ p).
Definition set_taskQue_ (v : list (option loc)) (p : t) : t :=
  mk (threads_ p) (initThreadSize_ p) (threadSizeThreshold_ p)
    (curThreadSize_ p) (idleThreadSize_ p) v (taskSize_ p)
    (taskQueMaxThreshold_ p) (poolMode_ p) (isPoolRunning_ p).
Definition set_taskSize_ (v : Z) (p : t) : t :=
  mk (threads_ p) (initThreadSize_ p) (threadSizeThreshold_ p)
    (curThreadSize_ p) (idleThreadSize_ p) (taskQue_ p) v
    (taskQueMaxThreshold_ p) (poolMode_ p) (isPoolRunning_ p).
Definition set_taskQueMaxThreshold_ (v : Z) (p : t) : t :=
  mk (threads_ p) (initThreadSize_ p) (threadSizeThreshold_ p)
    (curThreadSize_ p) (idleThreadSize_ p) (taskQue_ p) (taskSize_ p) v
    (poolMode_ p) (isPoolRunning_ p).
Definition set_poolMode_ (v : PoolMode) (p : t) : t :=
  mk (threads_ p) (initThreadSize_ p) (threadSizeThreshold_ p)
    (curThreadSize_ p) (idleThreadSize_ p) (taskQue_ p) (taskSize_ p)
    (taskQueMaxThreshold_ p) v (isPoolRunning_ p).
Definition set_isPoolRunning_ (v : bool) (p : t) : t :=
  mk (threads_ p) (initThreadSize_ p) (threadSizeThreshold_ p)
    (curThreadSize_ p) (idleThreadSize_ p) (taskQue_ p) (taskSize_ p)
    (taskQueMaxThreshold_ p) (poolMode_ p) v.

(** [ThreadPool()] *)
Definition init : t :=
  mk ∅ 0 THREAD_MAX_THRESHOLD 0 0 [] 0 TASK_MAX_THRESHOLD MODE_FIXED false.

Definition checkRunningState (p : t) : bool := isPoolRunning_ p.

(** [setMode(mode)] *)
Definition setMode (mode : PoolMode) (p : t) : t * list Event :=
  if checkRunningState p then
    (p, [cerr "ThreadPool is running, cannot set mode!"])
  else (set_poolMode_ mode p, []).

(** [setTaskQueMaxThreshold(threshold)] *)
Definition setTaskQueMaxThreshold (threshold : Z) (p : t) : t * list Event :=
  if checkRunningState p then
    (p, [cerr "ThreadPool is running, cannot set task queue max threshold!"])
  else if (threshold <=? 0) || (threshold >? TASK_MAX_THRESHOLD) then
    (p, [cerr "Invalid task queue max threshold!"])
  else (set_taskQueMaxThreshold_ threshold p, []).

(** [setThreadSizeThreshold(threshold)] *)
Definition setThreadSizeThreshold (threshold : Z) (p : t) : t * list Event :=
  if checkRunningState p then
    (p, [cerr "ThreadPool is running, cannot set thread size threshold!"])
  else if negb (PoolMode_eqb (poolMode_ p) MODE_CACHED) then
    (p, [cerr "Thread size threshold can only be set in cached mode!"])
  else if (threshold <=? 0) || (threshold >? THREAD_MAX_THRESHOLD) then
    (p, [cerr "Invalid thread size threshold!"])
  else (set_threadSizeThreshold_ threshold p, []).

(** [threads_.emplace(k, v)]: nothing is inserted under a key that is
    already there. *)
Definition emplace (k : Z) (v : Thread.t) (m : gmap Z Thread.t) : gmap Z Thread.t :=
  match m !! k with
  | Some _ => m
  | None => <[k := v]> m
  end.

(** [threads_[k]->...]: under a missing key [operator[]] makes a null
    pointer, which is then dereferenced. *)
Definition deref (k : Z) (m : gmap Z Thread.t) : outcome Thread.t :=
  match m !! k with
  | Some th => Done th
  | None => Undefined
  end.

(** [auto ptr = std::make_unique<Thread>(...); int threadId = ptr->getId();
     threads_.emplace(threadId, std::move(ptr));]
    gives [threadId], the next [generateId_] and the new map. *)
Definition new_thread (generateId_ : Z) (m : gmap Z Thread.t)
    : outcome (Z * Z * gmap Z Thread.t) :=
  let* (ptr, generateId') := Thread.init generateId_ in
  let threadId := Thread.getId ptr in
  Done (threadId, generateId', emplace threadId ptr m).

(** The first loop of [start]: [n] rounds of [new_thread]. *)
Fixpoint start_create (n : nat) (generateId_ : Z) (m : gmap Z Thread.t)
    : outcome (Z * gmap Z Thread.t) :=
  match n with
  | O => Done (generateId_, m)
  | S n' =>
      let* (_, generateId', m') := new_thread generateId_ m in
      start_create n' generateId' m'
  end.

(** The second loop of [start], from [i] on for [n] rounds:
    [threads_[i]->start(); ++idleThreadSize_;] *)
Fixpoint start_launch (n : nat) (i : Z) (p : t) (tr : list Event)
    : outcome (t * list Event) :=
  match n with
  | O => Done (p, tr)
  | S n' =>
      let* th := deref i (threads_ p) in
      start_launch n' (i + 1)
        (set_idleThreadSize_ (Int32.wrap (idleThreadSize_ p + 1)) p)
        (tr ++ [Thread.start th])
  end.

(** The clock of [std::chrono::high_resolution_clock] counts
    nanoseconds; [duration_cast<seconds>] truncates. *)
Definition ticks_per_second : Z := 1000000000.
Definition duration_cast_seconds (ticks : Z) : Z := Z.quot ticks ticks_per_second.

(** Where a worker stands in [threadFunc]. *)
Inductive pc : Type :=
| Locking                      (* about to take [taskQueMtx_] *)
| LoopHead                     (* holds the lock, at [while (taskQue_.size() == 0)] *)
| WaitFor                      (* inside [notEmpty_.wait_for(lock, 1s)] *)
| WaitCv                       (* inside [notEmpty_.wait(lock)] *)
| Exec (task : option loc)     (* lock released, at [if (task != nullptr)] *)
| Returned.                    (* [threadFunc] has returned *)

Record Worker : Type := mkWorker { threadid : Z; lastTime : Z; at_ : pc }.

(** Entry of [threadFunc(threadid)] at clock reading [now]. *)
Definition threadFunc_enter (threadid : Z) (now : Z) : Worker :=
  mkWorker threadid now Locking.

Definition goto (l : pc) (w : Worker) : Worker :=
  mkWorker (threadid w) (lastTime w) l.

Section WithWorld.

Context {World : Type}.

(** The pool together with what it shares with the rest of the
    program: the static [Thread::generateId_], the [Task] and [Result]
    objects behind the shared pointers, the user's world, and the
    events so far (oldest first). *)
Record State : Type := mkState {
  pool : t;
  generateId_ : Z;
  tasks : list (Task.t World);
  results : list Result.t;
  world : World;
  trace : list Event
}.

Definition set_pool (v : t) (s : State) : State :=
  mkState v (generateId_ s) (tasks s) (results s) (world s) (trace s).
Definition set_generateId_ (v : Z) (s : State) : State :=
  mkState (pool s) v (tasks s) (results s) (world s) (trace s).
Definition set_tasks (v : list (Task.t World)) (s : State) : State :=
  mkState (pool s) (generateId_ s) v (results s) (world s) (trace s).
Definition set_results (v : list Result.t) (s : State) : State :=
  mkState (pool s) (generateId_ s) (tasks s) v (world s) (trace s).
Definition set_world (v : World) (s : State) : State :=
  mkState (pool s) (generateId_ s) (tasks s) (results s) v (trace s).
Definition set_trace (v : list Event) (s : State) : State :=
  mkState (pool s) (generateId_ s) (tasks s) (results s) (world s) v.

Definition emit (evs : list Event) (s : State) : State :=
  set_trace (trace s ++ evs) s.

(** [std::make_shared<Result>(isValid)] *)
Definition make_shared_Result (isValid : bool) (s : State) : loc * State :=
  (length (results s), set_results (results s ++ [Result.init isValid]) s).

(** [std::make_shared<MyTask>(...)] for a user class whose [run()] is
    [run]. *)
Definition make_shared_Task (run : World -> Any.t * World) (s : State) : loc * State :=
  (length (tasks s), set_tasks (tasks s ++ [Task.init run]) s).

(** [sp->setResult(res)] *)
Definition Task_setResult_at (sp : option loc) (res : loc) (s : State) : outcome State :=
  match sp with
  | None => Undefined
  | Some l =>
      match tasks s !! l with
      | None => Undefined
      | Some task => Done (set_tasks (<[l := Task.setResult (Some res) task]> (tasks s)) s)
      end
  end.

(** The body of [if (poolMode_ == MODE_CACHED && ...)] in [submitTask]. *)
Definition submitTask_grow (s : State) : outcome State :=
  let s := emit [cout ">>> create new thread..."] s in
  let* (threadId, generateId', threads') := new_thread (generateId_ s) (threads_ (pool s)) in
  let* th := deref threadId threads' in
  let p := set_threads_ threads' (pool s) in
  let p := set_curThreadSize_ (Int32.wrap (curThreadSize_ p + 1)) p in
  let p := set_idleThreadSize_ (Int32.wrap (idleThreadSize_ p + 1)) p in
  Done (emit [Thread.start th] (set_generateId_ generateId' (set_pool p s))).

Definition submitTask_grows (p : t) : bool :=
  PoolMode_eqb (poolMode_ p) MODE_CACHED
  && (taskSize_ p >? idleThreadSize_ p)
  && (curThreadSize_ p <? threadSizeThreshold_ p).

(** [submitTask(sp)], from the lock being held to the return.
    [woken] says how the thread got to test the [notFull_] predicate
    (see [wait_for]); the result is the returned [shared_ptr<Result>]. *)
Definition submitTask (sp : option loc) (woken : option cv_status) (s : State)
    : outcome (loc * State) :=
  let p := pool s in
  let* notFull :=
    wait_for woken
      (Z.of_nat (length (taskQue_ p)) <? Int32.to_size_t (taskQueMaxThreshold_ p)) in
  if negb notFull then
    Done (make_shared_Result false
            (emit [cerr "Task queue is full, submit task failed!"] s))
  else
    let p := set_taskQue_ (taskQue_ p ++ [sp]) p in
    let p := set_taskSize_ (Int32.wrap (taskSize_ p + 1)) p in
    let s := emit [notify_all notEmpty_] (set_pool p s) in
    let* s := if submitTask_grows p then submitTask_grow s else Done s in
    let '(res, s) := make_shared_Result true s in
    let* s := Task_setResult_at sp res s in
    Done (res, s).

(** [start(initThreadSize)].  With a negative argument
    [initThreadSize_] is above [2^63] and the [int] loop counter
    overflows. *)
Definition start (initThreadSize : Z) (s : State) : outcome State :=
  let p := set_isPoolRunning_ true (pool s) in
  let p := set_initThreadSize_ (Int32.to_size_t initThreadSize) p in
  let p := set_curThreadSize_ initThreadSize p in
  if initThreadSize <? 0 then Undefined
  else
    let n := Z.to_nat (initThreadSize_ p) in
    let* (generateId', threads') := start_create n (generateId_ s) (threads_ p) in
    let* (p, tr) := start_launch n 0 (set_threads_ threads' p) (trace s) in
    Done (set_trace tr (set_generateId_ generateId' (set_pool p s))).

(** [~ThreadPool()] up to the wait on [exitCond_] ... *)
Definition destructor_enter (s : State) : State :=
  emit [notify_all notEmpty_] (set_pool (set_isPoolRunning_ false (pool s)) s).

(** ... and the wait itself, [exitCond_.wait(lock, curThreadSize_ == 0)]. *)
Definition destructor_wait (s : State) : outcome State :=
  if curThreadSize_ (pool s) =? 0 then Done s else Blocks.

(** The pop of [threadFunc], from [idleThreadSize_--] to the release of
    the lock; one task is in the queue. *)
Definition threadFunc_pop (task : option loc) (rest : list (option loc)) (s : State)
    : State :=
  let p := pool s in
  let p := set_idleThreadSize_ (Int32.wrap (idleThreadSize_ p - 1)) p in
  let p := set_taskQue_ rest p in
  let p := set_taskSize_ (Int32.wrap (taskSize_ p - 1)) p in
  let s := set_pool p s in
  let s := if Z.of_nat (length (taskQue_ p)) >? 0 then emit [notify_all notEmpty_] s else s in
  emit [notify_all notFull_] s.

(** One move of a worker in [threadFunc]: from where it stands to the
    next place where it can be suspended.  [status] is what
    [wait_for] returned (used at [WaitFor]); [now] is the clock
    reading the move takes (used at [WaitFor] and [Exec]). *)
Definition threadFunc (now : Z) (status : cv_status) (w : Worker) (s : State)
    : outcome (Worker * State) :=
  let p := pool s in
  match at_ w with
  | Locking => Done (goto LoopHead w, s)
  | LoopHead =>
      match taskQue_ p with
      | [] =>
          if negb (isPoolRunning_ p) then
            let p := set_threads_ (delete (threadid w) (threads_ p)) p in
            let p := set_curThreadSize_ (Int32.wrap (curThreadSize_ p - 1)) p in
            Done (goto Returned w, emit [notify_all exitCond_] (set_pool p s))
          else if PoolMode_eqb (poolMode_ p) MODE_CACHED then
            Done (goto WaitFor w, s)
          else Done (goto WaitCv w, s)
      | task :: rest => Done (goto (Exec task) w, threadFunc_pop task rest s)
      end
  | WaitFor =>
      match status with
      | timeout =>
          let duration := duration_cast_seconds (now - lastTime w) in
          if (duration >? THREAD_MAX_IDLE_TIME)
             && (Int32.to_size_t (curThreadSize_ p) >? initThreadSize_ p)
          then
            let p := set_threads_ (delete (threadid w) (threads_ p)) p in
            let p := set_curThreadSize_ (Int32.wrap (curThreadSize_ p - 1)) p in
            let p := set_idleThreadSize_ (Int32.wrap (idleThreadSize_ p - 1)) p in
            Done (goto Returned w, set_pool p s)
          else Done (goto LoopHead w, s)
      | no_timeout => Done (goto LoopHead w, s)
      end
  | WaitCv => Done (goto LoopHead w, s)
  | Exec task =>
      let* s :=
        match task with
        | None => Done s
        | Some l =>
            match tasks s !! l with
            | None => Undefined
            | Some tk =>
                let* (results', world') := Task.exec tk (results s) (world s) in
                Done (set_world world' (set_results results' s))
            end
        end in
      let p := pool s in
      let p := set_idleThreadSize_ (Int32.wrap (idleThreadSize_ p + 1)) p in
      Done (mkWorker (threadid w) now Locking, set_pool p s)
  | Returned => Blocks
  end.

(** *** Histories of the whole pool

    One entry per uninterrupted run of some thread on the pool, in the
    order in which the runs take the lock.  A worker move may be made
    from any standing [w]: the moves of real workers are among them. *)
Inductive Call : Type :=
| call_setMode (mode : PoolMode)
| call_setTaskQueMaxThreshold (threshold : Z)
| call_setThreadSizeThreshold (threshold : Z)
| call_start (initThreadSize : Z)
| call_make_shared_Task (run : World -> Any.t * World)
| call_submitTask (sp : option loc) (woken : option cv_status)
| call_threadFunc (now : Z) (status : cv_status) (w : Worker)
| call_destructor_enter
| call_destructor_wait.

Definition on_pool (f : t -> t * list Event) (s : State) : State :=
  let '(p, evs) := f (pool s) in emit evs (set_pool p s).

Definition call (c : Call) (s : State) : outcome State :=
  match c with
  | call_setMode mode => Done (on_pool (setMode mode) s)
  | call_setTaskQueMaxThreshold n => Done (on_pool (setTaskQueMaxThreshold n) s)
  | call_setThreadSizeThreshold n => Done (on_pool (setThreadSizeThreshold n) s)
  | call_start n => start n s
  | call_make_shared_Task run => Done (snd (make_shared_Task run s))
  | call_submitTask sp woken =>
      let* (_, s') := submitTask sp woken s in Done s'
  | call_threadFunc now status w =>
      let* (_, s') := threadFunc now status w s in Done s'
  | call_destructor_enter => Done (destructor_enter s)
  | call_destructor_wait => destructor_wait s
  end.

(** A call that blocks changes nothing and the history goes on; a call
    without defined behaviour ends it. *)
Fixpoint run (cs : list Call) (s : State) : option State :=
  match cs with
  | [] => Some s
  | c :: cs' =>
      match call c s with
      | Done s' => run cs' s'
      | Blocks => run cs' s
      | Undefined => None
      end
  end.

(** The program before any of its code has run on the pool: a freshly
    constructed pool, [Thread::generateId_ = 0], no shared objects. *)
Definition boot (w : World) : State := mkState init 0 [] [] w [].

(** [n] pops in a row by workers standing at [LoopHead]; the tasks
    they take, in the order taken. *)
Fixpoint drain (n : nat) (s : State) : list (option loc) * State :=
  match n with
  | O => ([], s)
  | S n' =>
      match threadFunc 0 no_timeout (mkWorker 0 0 LoopHead) s with
      | Done (mkWorker _ _ (Exec task), s') =>
          let '(ts, s'') := drain n' s' in (task :: ts, s'')
      | _ => ([], s)
      end
  end.

(** Shutdown seen from the workers [ws], each suspended in a wait: one
    after the other is woken by the broadcast and goes through the loop
    head once. *)
Fixpoint wake_all (ws : list Worker) (s : State) : outcome State :=
  match ws with
  | [] => Done s
  | w :: ws' =>
      let* (w1, s1) := threadFunc 0 no_timeout w s in
      let* (_, s2) := threadFunc 0 no_timeout w1 s1 in
      wake_all ws' s2
  end.

End WithWorld.

Arguments State World : clear implicits.

(** A queue entry that a worker can execute and publish from: a non-null
    task whose handle is attached and valid. *)
Definition has_valid_handle {World : Type} (s : State World) (sp : option loc) : Prop :=
  exists l tk res r,
    sp = Some l /\ tasks s !! l = Some tk /\
    Task.result_ tk = Some res /\
    results s !! res = Some r /\ Result.isValid_ r = true.

Definition queue_ready {World : Type} (s : State World) : Prop :=
  Forall (has_valid_handle s) (taskQue_ (pool s)).

(** Thread ids are handed out by [generateId_++] from [0]. *)
Definition fresh_ids {World : Type} (s : State World) : Prop :=
  0 <= generateId_ s /\
  forall k th, threads_ (pool s) !! k = Some th -> 0 <= k < generateId_ s.

(** The members that [taskSize_] has to agree with. *)
Definition counts_queue (p : t) : Prop :=
  taskSize_ p = Z.of_nat (length (taskQue_ p)) /\
  Z.of_nat (length (taskQue_ p)) <= Int32.INT32_MAX /\
  1 <= taskQueMaxThreshold_ p <= Int32.INT32_MAX.

End ThreadPool.

(** * Properties *)

Module Int32Facts.
Import Int32.

Lemma wrap_in_range z : in_range z -> wrap z = z.
Proof.
  unfold in_range, wrap, INT32_MIN, INT32_MAX. intros H.
  rewrite Z.mod_small; lia.
Qed.

Lemma wrap_range z : in_range (wrap z).
Proof.
  unfold in_range, wrap, INT32_MIN, INT32_MAX.
  pose proof (Z.mod_pos_bound (z + 2 ^ 31) (2 ^ 32)). lia.
Qed.

Lemma to_size_t_nonneg z : 0 <= z <= INT32_MAX -> to_size_t z = z.
Proof.
  unfold to_size_t, INT32_MAX. intros H. rewrite Z.mod_small; lia.
Qed.

End Int32Facts.

Lemma bind_Done {A B : Type} (m : outcome A) (k : A -> outcome B) (b : B) :
  bind m k = Done b -> exists a, m = Done a /\ k a = Done b.
Proof. destruct m; simpl; intros H; try discriminate. eauto. Qed.


(** ** Semaphore *)

Lemma Semaphore_wait_Done s s' :
  Semaphore.wait s = Done s' ->
  (Semaphore.isExit_ s = true /\ s' = s) \/
  (Semaphore.isExit_ s = false /\ 0 < Semaphore.resLimit_ s /\
   Semaphore.resLimit_ s' = Semaphore.resLimit_ s - 1).
Proof.
  unfold Semaphore.wait. destruct (Semaphore.isExit_ s) eqn:He.
  - intros [= <-]. by left.
  - destruct (Z.leb_spec (Semaphore.resLimit_ s) 0); [discriminate|].
    intros [= <-]. right. simpl. auto.
Qed.

Lemma Semaphore_post_Done s s' :
  Semaphore.post s = Done s' ->
  Semaphore.resLimit_ s <= Semaphore.resLimit_ s' <= Semaphore.resLimit_ s + 1.
Proof.
  unfold Semaphore.post. destruct (Semaphore.isExit_ s).
  - intros [= <-]. lia.
  - destruct (Semaphore.resLimit_ s =? Int32.INT32_MAX); [discriminate|].
    intros [= <-]. simpl. lia.
Qed.

Lemma Semaphore_step_nonneg o s s' :
  0 <= Semaphore.resLimit_ s -> Semaphore.step o s = Done s' ->
  0 <= Semaphore.resLimit_ s'.
Proof.
  intros H0. destruct o; simpl.
  - intros Hw. apply Semaphore_wait_Done in Hw as [[_ ->]|(_ & Hpos & ->)]; lia.
  - intros Hp. apply Semaphore_post_Done in Hp. lia.
  - intros [= <-]. exact H0.
Qed.

(** The history is defined as long as the posts fit below [INT32_MAX]. *)
Lemma Semaphore_run_defined ops : forall s,
  Semaphore.resLimit_ s + Semaphore.posts ops <= Int32.INT32_MAX ->
  is_Some (Semaphore.run ops s).
Proof.
  induction ops as [|o ops IH]; intros s Hb; simpl; [by eexists|].
  assert (Hp : 0 <= Semaphore.posts ops).
  { clear. induction ops as [|[] ops IH]; simpl; lia. }
  destruct o; simpl in *.
  - destruct (Semaphore.wait s) as [s'| |] eqn:Hw.
    + apply IH. apply Semaphore_wait_Done in Hw as [[_ ->]|(_ & _ & ->)]; lia.
    + apply IH. lia.
    + unfold Semaphore.wait in Hw.
      destruct (Semaphore.isExit_ s), (Semaphore.resLimit_ s <=? 0); discriminate.
  - unfold Semaphore.post.
    destruct (Semaphore.isExit_ s); [apply IH; lia|].
    destruct (Z.eqb_spec (Semaphore.resLimit_ s) Int32.INT32_MAX); [lia|].
    apply IH. simpl. lia.
  - apply IH. simpl. lia.
Qed.

(** C10. Starting from a non-negative limit, after any history of [wait],
    [post] and destructor calls on a semaphore, [resLimit_] is still
    non-negative: [wait] decrements it only when it is strictly positive
    and [post] only increments it. *)
Theorem Semaphore_resLimit_nonneg (ops : list Semaphore.op) (s0 s : Semaphore.t) :
  0 <= Semaphore.resLimit_ s0 ->
  Semaphore.run ops s0 = Some s ->
  0 <= Semaphore.resLimit_ s.
Proof.
  revert s0. induction ops as [|o ops IH]; intros s0 H0; simpl.
  - intros [= <-]. exact H0.
  - destruct (Semaphore.step o s0) as [s1| |] eqn:Hs; [| |discriminate].
    + apply IH. eapply Semaphore_step_nonneg; eauto.
    + apply IH. exact H0.
Qed.

Lemma Semaphore_resLimit_nonneg_witness :
  0 <= Semaphore.resLimit_ (Semaphore.mk true 1).
Proof.
  apply (Semaphore_resLimit_nonneg
           [Semaphore.Wait; Semaphore.Post; Semaphore.Wait; Semaphore.Wait;
            Semaphore.Post; Semaphore.Destroy; Semaphore.Wait]
           (Semaphore.init 0)).
  - simpl. lia.
  - reflexivity.
Defined.

(** ** Result *)

Lemma Result_setVal_Done r v :
  Semaphore.isExit_ (Result.sem_ r) = true \/
  Semaphore.resLimit_ (Result.sem_ r) <> Int32.INT32_MAX ->
  exists sem',
    Semaphore.post (Result.sem_ r) = Done sem' /\
    Result.setVal v r = Done (Result.mk v sem' (Result.isValid_ r)).
Proof.
  intros H. unfold Result.setVal, Semaphore.post.
  destruct (Semaphore.isExit_ (Result.sem_ r)) eqn:He; simpl; [eauto|].
  destruct (Z.eqb_spec (Semaphore.resLimit_ (Result.sem_ r)) Int32.INT32_MAX);
    [destruct H; [discriminate|contradiction]|].
  simpl. eauto.
Qed.

Lemma Result_get_posted r v sem' :
  Result.isValid_ r = true ->
  0 <= Semaphore.resLimit_ (Result.sem_ r) ->
  Semaphore.post (Result.sem_ r) = Done sem' ->
  exists r2, Result.get (Result.mk v sem' (Result.isValid_ r)) = Done (v, r2).
Proof.
  intros Hvalid Hlim Hpost.
  unfold Result.get. simpl. rewrite Hvalid. simpl.
  unfold Semaphore.post in Hpost. unfold Semaphore.wait.
  destruct (Semaphore.isExit_ (Result.sem_ r)) eqn:He.
  - injection Hpost as <-. rewrite He. simpl. eauto.
  - destruct (Semaphore.resLimit_ (Result.sem_ r) =? Int32.INT32_MAX);
      [discriminate|].
    injection Hpost as <-. simpl.
    destruct (Z.leb_spec (Semaphore.resLimit_ (Result.sem_ r) + 1) 0); [lia|].
    simpl. eauto.
Qed.

(** C1. On a valid handle whose semaphore count is a non-negative [int]
    below [INT32_MAX], [setVal v] followed by [get] returns exactly [v];
    the same holds when the two calls go through a shared pointer to the
    handle. *)
Theorem Result_get_after_setVal (results : list Result.t) (res : loc)
    (r : Result.t) (v : Any.t) :
  results !! res = Some r ->
  Result.isValid_ r = true ->
  0 <= Semaphore.resLimit_ (Result.sem_ r) < Int32.INT32_MAX ->
  (exists r1 r2, Result.setVal v r = Done r1 /\ Result.get r1 = Done (v, r2)) /\
  (exists results1 results2,
     Result.setVal_at res v results = Done results1 /\
     Result.get_at res results1 = Done (v, results2)).
Proof.
  intros Hres Hvalid Hlim.
  destruct (Result_setVal_Done r v) as (sem' & Hpost & Hset); [right; lia|].
  destruct (Result_get_posted r v sem' Hvalid (proj1 Hlim) Hpost) as [r2 Hget].
  split.
  - eauto.
  - unfold Result.setVal_at, Result.get_at. rewrite Hres, Hset. simpl.
    eexists _, _. split; [reflexivity|].
    rewrite list_lookup_insert_eq by (by eapply lookup_lt_Some).
    rewrite Hget. simpl. reflexivity.
Qed.

Lemma Result_get_after_setVal_witness :
  exists results1 results2,
    Result.setVal_at 1%nat (Any.of_data 42) [Result.init false; Result.init true]
      = Done results1 /\
    Result.get_at 1%nat results1 = Done (Any.of_data 42, results2).
Proof.
  apply (Result_get_after_setVal
           [Result.init false; Result.init true] 1%nat (Result.init true)
           (Any.of_data 42)).
  - reflexivity.
  - reflexivity.
  - simpl. unfold Int32.INT32_MAX. lia.
Defined.

(** C3 fails as stated: on the invalid handle [Result(false)], [setVal]
    fills the value slot and raises the semaphore count. *)
Lemma Result_setVal_invalid_not_noop :
  Result.isValid_ (Result.init false) = false /\
  exists r',
    Result.setVal (Any.of_data 7) (Result.init false) = Done r' /\
    Result.any_ r' <> Result.any_ (Result.init false) /\
    Semaphore.resLimit_ (Result.sem_ r')
      <> Semaphore.resLimit_ (Result.sem_ (Result.init false)).
Proof.
  split; [reflexivity|]. eexists. split; [reflexivity|].
  split; simpl; [|lia]. unfold Any.of_data, Any.empty. intros [=].
Qed.

(** C3, amended. [setVal] does not look at [isValid_]: on an invalid
    handle whose semaphore is live and below [INT32_MAX] it stores the
    value and raises the count by one, as on a valid one.  What is kept is
    that the stored value cannot be read back: [get] on the handle still
    returns the sentinel and changes nothing. *)
Theorem Result_setVal_invalid (r : Result.t) (v : Any.t) :
  Result.isValid_ r = false ->
  Semaphore.isExit_ (Result.sem_ r) = false ->
  Semaphore.resLimit_ (Result.sem_ r) < Int32.INT32_MAX ->
  let r' := Result.mk v
              (Semaphore.mk false (Semaphore.resLimit_ (Result.sem_ r) + 1))
              false in
  Result.setVal v r = Done r' /\
  Result.get r' = Done (Result.invalid_value, r').
Proof.
  intros Hinv Hexit Hlim r'. split; [|reflexivity].
  unfold Result.setVal, Semaphore.post. rewrite Hexit.
  destruct (Z.eqb_spec (Semaphore.resLimit_ (Result.sem_ r)) Int32.INT32_MAX);
    [lia|].
  simpl. rewrite Hinv. reflexivity.
Qed.

Lemma Result_setVal_invalid_witness :
  let r' := Result.mk (Any.of_data 7) (Semaphore.mk false 1) false in
  Result.setVal (Any.of_data 7) (Result.init false) = Done r' /\
  Result.get r' = Done (Result.invalid_value, r').
Proof.
  apply (Result_setVal_invalid (Result.init false) (Any.of_data 7)).
  - reflexivity.
  - reflexivity.
  - simpl. unfold Int32.INT32_MAX. lia.
Defined.

(** ** Task *)

(** C4 fails as stated: a task with no handle attached, whose body would
    turn the world [0] into [1], leaves the world at [0] under [exec]. *)
Lemma Task_exec_no_handle_body_not_run :
  let task := Task.init (fun n : nat => (Any.of_data n, S n)) in
  Task.result_ task = None /\
  Task.exec task [] 0%nat = Done ([], 0%nat) /\
  Task.exec task [] 0%nat <> Done ([], snd (Task.run task 0%nat)).
Proof.
  simpl. split; [reflexivity|]. split; [reflexivity|]. intros [=].
Qed.

(** C4, amended. With a handle attached, [exec] runs the body once and
    publishes the value it returned into the handle; with no handle
    attached, [exec] does nothing: the body is not run. *)
Theorem Task_exec_spec {World : Type} (task : Task.t World)
    (results : list Result.t) (w : World) :
  (forall res r,
     Task.result_ task = Some res ->
     results !! res = Some r ->
     Semaphore.isExit_ (Result.sem_ r) = true \/
       Semaphore.resLimit_ (Result.sem_ r) <> Int32.INT32_MAX ->
     exists sem',
       Semaphore.post (Result.sem_ r) = Done sem' /\
       Task.exec task results w =
         Done (<[res := Result.mk (fst (Task.run task w)) sem' (Result.isValid_ r)]>
                 results,
               snd (Task.run task w))) /\
  (Task.result_ task = None -> Task.exec task results w = Done (results, w)).
Proof.
  split.
  - intros res r Hres Hr Hsem. unfold Task.exec. rewrite Hres.
    destruct (Task.run task w) as [v w'] eqn:Hrun. simpl.
    destruct (Result_setVal_Done r v Hsem) as (sem' & Hpost & Hset).
    exists sem'. split; [exact Hpost|].
    unfold Result.setVal_at. rewrite Hr, Hset. reflexivity.
  - intros Hnone. unfold Task.exec. rewrite Hnone. reflexivity.
Qed.

Lemma Task_exec_spec_witness :
  Task.exec (Task.mk (fun n : nat => (Any.of_data n, S n)) (Some 0%nat))
    [Result.init true] 5%nat
  = Done ([Result.mk (Any.of_data 5%nat) (Semaphore.mk false 1) true], 6%nat).
Proof.
  destruct (Task_exec_spec
              (Task.mk (fun n : nat => (Any.of_data n, S n)) (Some 0%nat))
              [Result.init true] 5%nat) as [Hsome _].
  destruct (Hsome 0%nat (Result.init true)) as (sem' & Hpost & Hexec).
  - reflexivity.
  - reflexivity.
  - right. simpl. unfold Int32.INT32_MAX. lia.
  - injection Hpost as <-. exact Hexec.
Defined.

(** The value of the body reaches the awaiting side unchanged: after a
    worker has run [exec] on a task with a valid handle attached, [get]
    through the submitter's pointer returns what [run] returned. *)
Lemma Task_exec_then_get {World : Type} (task : Task.t World)
    (results : list Result.t) (w : World) (res : loc) (r : Result.t) :
  Task.result_ task = Some res ->
  results !! res = Some r ->
  Result.isValid_ r = true ->
  0 <= Semaphore.resLimit_ (Result.sem_ r) < Int32.INT32_MAX ->
  exists results1 results2,
    Task.exec task results w = Done (results1, snd (Task.run task w)) /\
    Result.get_at res results1 = Done (fst (Task.run task w), results2).
Proof.
  intros Hres Hr Hvalid Hlim. unfold Task.exec. rewrite Hres.
  destruct (Task.run task w) as [v w'] eqn:Hrun. simpl.
  unfold Result.setVal_at, Result.get_at. rewrite Hr.
  destruct (Result_setVal_Done r v) as (sem' & Hpost & Hset); [right; lia|].
  rewrite Hset. simpl.
  destruct (Result_get_posted r v sem' Hvalid (proj1 Hlim) Hpost) as [r2 Hget].
  eexists _, _. split; [reflexivity|].
  rewrite list_lookup_insert_eq by (by eapply lookup_lt_Some).
  rewrite Hget. simpl. reflexivity.
Qed.

(** ** ThreadPool: configuration *)

Import ThreadPool.

(** C5. Each of the three setters leaves the pool as it is when the pool
    is running, when its threshold is outside [1..ceiling], and (for
    [setThreadSizeThreshold]) when the mode is not [MODE_CACHED]; in each
    of these cases one line goes to [cerr].  In every other case the
    member it sets holds the given value afterwards, every other member
    holds what it held before, and nothing is printed. *)
Theorem setters_spec (p : ThreadPool.t) (mode : PoolMode) (n : Z) :
  (isPoolRunning_ p = true ->
     (fst (setMode mode p) = p /\ exists l, snd (setMode mode p) = [cerr l]) /\
     (fst (setTaskQueMaxThreshold n p) = p /\
        exists l, snd (setTaskQueMaxThreshold n p) = [cerr l]) /\
     (fst (setThreadSizeThreshold n p) = p /\
        exists l, snd (setThreadSizeThreshold n p) = [cerr l])) /\
  (~ (1 <= n <= TASK_MAX_THRESHOLD) ->
     fst (setTaskQueMaxThreshold n p) = p /\
     exists l, snd (setTaskQueMaxThreshold n p) = [cerr l]) /\
  (~ (1 <= n <= THREAD_MAX_THRESHOLD) ->
     fst (setThreadSizeThreshold n p) = p /\
     exists l, snd (setThreadSizeThreshold n p) = [cerr l]) /\
  (poolMode_ p <> MODE_CACHED ->
     fst (setThreadSizeThreshold n p) = p /\
     exists l, snd (setThreadSizeThreshold n p) = [cerr l]) /\
  (isPoolRunning_ p = false ->
     setMode mode p = (set_poolMode_ mode p, [])) /\
  (isPoolRunning_ p = false -> 1 <= n <= TASK_MAX_THRESHOLD ->
     setTaskQueMaxThreshold n p = (set_taskQueMaxThreshold_ n p, [])) /\
  (isPoolRunning_ p = false -> poolMode_ p = MODE_CACHED ->
     1 <= n <= THREAD_MAX_THRESHOLD ->
     setThreadSizeThreshold n p = (set_threadSizeThreshold_ n p, [])) /\
  (isPoolRunning_ p = false ->
     poolMode_ (fst (setMode mode p)) = mode /\
     threads_ (fst (setMode mode p)) = threads_ p /\
     initThreadSize_ (fst (setMode mode p)) = initThreadSize_ p /\
     threadSizeThreshold_ (fst (setMode mode p)) = threadSizeThreshold_ p /\
     curThreadSize_ (fst (setMode mode p)) = curThreadSize_ p /\
     idleThreadSize_ (fst (setMode mode p)) = idleThreadSize_ p /\
     taskQue_ (fst (setMode mode p)) = taskQue_ p /\
     taskSize_ (fst (setMode mode p)) = taskSize_ p /\
     taskQueMaxThreshold_ (fst (setMode mode p)) = taskQueMaxThreshold_ p /\
     isPoolRunning_ (fst (setMode mode p)) = isPoolRunning_ p /\
     snd (setMode mode p) = []) /\
  (isPoolRunning_ p = false -> 1 <= n <= TASK_MAX_THRESHOLD ->
     taskQueMaxThreshold_ (fst (setTaskQueMaxThreshold n p)) = n /\
     threads_ (fst (setTaskQueMaxThreshold n p)) = threads_ p /\
     initThreadSize_ (fst (setTaskQueMaxThreshold n p)) = initThreadSize_ p /\
     threadSizeThreshold_ (fst (setTaskQueMaxThreshold n p)) = threadSizeThreshold_ p /\
     curThreadSize_ (fst (setTaskQueMaxThreshold n p)) = curThreadSize_ p /\
     idleThreadSize_ (fst (setTaskQueMaxThreshold n p)) = idleThreadSize_ p /\
     taskQue_ (fst (setTaskQueMaxThreshold n p)) = taskQue_ p /\
     taskSize_ (fst (setTaskQueMaxThreshold n p)) = taskSize_ p /\
     poolMode_ (fst (setTaskQueMaxThreshold n p)) = poolMode_ p /\
     isPoolRunning_ (fst (setTaskQueMaxThreshold n p)) = isPoolRunning_ p /\
     snd (setTaskQueMaxThreshold n p) = []) /\
  (isPoolRunning_ p = false -> poolMode_ p = MODE_CACHED ->
     1 <= n <= THREAD_MAX_THRESHOLD ->
     threadSizeThreshold_ (fst (setThreadSizeThreshold n p)) = n /\
     threads_ (fst (setThreadSizeThreshold n p)) = threads_ p /\
     initThreadSize_ (fst (setThreadSizeThreshold n p)) = initThreadSize_ p /\
     curThreadSize_ (fst (setThreadSizeThreshold n p)) = curThreadSize_ p /\
     idleThreadSize_ (fst (setThreadSizeThreshold n p)) = idleThreadSize_ p /\
     taskQue_ (fst (setThreadSizeThreshold n p)) = taskQue_ p /\
     taskSize_ (fst (setThreadSizeThreshold n p)) = taskSize_ p /\
     taskQueMaxThreshold_ (fst (setThreadSizeThreshold n p)) = taskQueMaxThreshold_ p /\
     poolMode_ (fst (setThreadSizeThreshold n p)) = poolMode_ p /\
     isPoolRunning_ (fst (setThreadSizeThreshold n p)) = isPoolRunning_ p /\
     snd (setThreadSizeThreshold n p) = []).
Proof.
  unfold setMode, setTaskQueMaxThreshold, setThreadSizeThreshold,
    checkRunningState, TASK_MAX_THRESHOLD, THREAD_MAX_THRESHOLD, Int32.INT32_MAX.
  destruct (isPoolRunning_ p) eqn:Hrun, (poolMode_ p) eqn:Hmode;
    destruct (Z.leb_spec n 0), (Z.gtb_spec n 2147483647), (Z.gtb_spec n 1024);
    simpl; repeat split; intros;
    try discriminate; try congruence; try lia; eauto.
Qed.

Lemma setters_spec_witness :
  threadSizeThreshold_
    (fst (setThreadSizeThreshold 8 (set_poolMode_ MODE_CACHED ThreadPool.init)))
  = 8 /\
  poolMode_ (fst (setMode MODE_CACHED ThreadPool.init)) = MODE_CACHED /\
  taskQueMaxThreshold_ (fst (setTaskQueMaxThreshold 5 ThreadPool.init)) = 5 /\
  setThreadSizeThreshold 8 (set_poolMode_ MODE_CACHED ThreadPool.init)
  = (set_threadSizeThreshold_ 8 (set_poolMode_ MODE_CACHED ThreadPool.init), []) /\
  fst (setTaskQueMaxThreshold 0 ThreadPool.init) = ThreadPool.init /\
  fst (setMode MODE_CACHED (set_isPoolRunning_ true ThreadPool.init))
  = set_isPoolRunning_ true ThreadPool.init.
Proof.
  split; [|split; [|split; [|split; [|split]]]].
  - destruct (setters_spec (set_poolMode_ MODE_CACHED ThreadPool.init) MODE_FIXED 8)
      as (_ & _ & _ & _ & _ & _ & _ & _ & _ & Hthr).
    apply Hthr; [reflexivity|reflexivity|]. unfold THREAD_MAX_THRESHOLD. lia.
  - destruct (setters_spec ThreadPool.init MODE_CACHED 0)
      as (_ & _ & _ & _ & _ & _ & _ & Hmode & _).
    apply Hmode. reflexivity.
  - destruct (setters_spec ThreadPool.init MODE_FIXED 5)
      as (_ & _ & _ & _ & _ & _ & _ & _ & Hque & _).
    apply Hque; [reflexivity|]. unfold TASK_MAX_THRESHOLD, Int32.INT32_MAX. lia.
  - destruct (setters_spec (set_poolMode_ MODE_CACHED ThreadPool.init) MODE_FIXED 8)
      as (_ & _ & _ & _ & _ & _ & Hstore & _).
    apply Hstore; [reflexivity|reflexivity|]. unfold THREAD_MAX_THRESHOLD. lia.
  - destruct (setters_spec ThreadPool.init MODE_FIXED 0)
      as (_ & Hrange & _).
    apply Hrange. lia.
  - destruct (setters_spec (set_isPoolRunning_ true ThreadPool.init) MODE_CACHED 0)
      as (Hrunning & _).
    apply Hrunning. reflexivity.
Defined.

(** [start(4)] on the first pool of a program: four threads under the ids
    [0..3], all started, all counted idle. *)
Example start_four :
  exists s : State unit,
    start 4 (boot tt) = Done s /\
    isPoolRunning_ (pool s) = true /\
    initThreadSize_ (pool s) = 4 /\
    curThreadSize_ (pool s) = 4 /\
    idleThreadSize_ (pool s) = 4 /\
    size (threads_ (pool s)) = 4%nat /\
    generateId_ s = 4 /\
    trace s = [thread_start 0; thread_start 1; thread_start 2; thread_start 3].
Proof.
  eexists. split; [vm_compute; reflexivity|].
  repeat split; vm_compute; reflexivity.
Qed.

(** ** ThreadPool: submitTask *)

(** C2. When the [notFull_] wait of [submitTask] times out with the queue
    still at its bound, [submitTask] returns a pointer to a fresh invalid
    [Result] and changes nothing in the pool (so neither the queue nor
    [taskSize_]), in the tasks, or in the user's world; [get] on that
    handle returns the sentinel at once, although a [wait] on its
    semaphore would block, and leaves the handle as it is. *)
Theorem submitTask_rejected {World : Type} (s : State World) (sp : option loc) :
  Int32.to_size_t (taskQueMaxThreshold_ (pool s))
    <= Z.of_nat (length (taskQue_ (pool s))) ->
  exists res s',
    submitTask sp (Some timeout) s = Done (res, s') /\
    pool s' = pool s /\
    taskQue_ (pool s') = taskQue_ (pool s) /\
    taskSize_ (pool s') = taskSize_ (pool s) /\
    tasks s' = tasks s /\
    generateId_ s' = generateId_ s /\
    world s' = world s /\
    trace s' = trace s ++ [cerr "Task queue is full, submit task failed!"] /\
    results s' = results s ++ [Result.init false] /\
    results s' !! res = Some (Result.init false) /\
    Result.get_at res (results s') = Done (Result.invalid_value, results s') /\
    Semaphore.wait (Result.sem_ (Result.init false)) = Blocks.
Proof.
  intros Hfull. unfold submitTask, wait_for.
  destruct (Z.ltb_spec (Z.of_nat (length (taskQue_ (pool s))))
              (Int32.to_size_t (taskQueMaxThreshold_ (pool s)))); [lia|].
  simpl.
  assert (Hlk : (results s ++ [Result.init false]) !! length (results s)
                = Some (Result.init false)).
  { rewrite lookup_app_r by lia. by rewrite Nat.sub_diag. }
  eexists _, _. split; [reflexivity|]. simpl.
  repeat (split; [reflexivity|]).
  split; [exact Hlk|]. split; [|reflexivity].
  unfold Result.get_at. rewrite Hlk. simpl.
  rewrite list_insert_id by exact Hlk. reflexivity.
Qed.

Lemma submitTask_rejected_witness :
  exists res s',
    submitTask None (Some timeout)
      (mkState
         (set_taskQue_ [None] (set_taskQueMaxThreshold_ 1 ThreadPool.init))
         0 [] [] tt [])
    = Done (res, s') /\
    taskQue_ (pool s') = [None] /\
    Result.get_at res (results s') = Done (Result.invalid_value, results s').
Proof.
  destruct (submitTask_rejected
              (mkState
                 (set_taskQue_ [None] (set_taskQueMaxThreshold_ 1 ThreadPool.init))
                 0 [] [] tt [])
              None) as (res & s' & H).
  - vm_compute. discriminate.
  - exists res, s'. intuition.
Defined.

(** What [submitTask] does once the queue has room. *)
Lemma submitTask_grow_Done {World : Type} (s s' : State World) :
  submitTask_grow s = Done s' ->
  let g := generateId_ s in
  exists th,
    g <> Int32.INT32_MAX /\
    emplace g (Thread.mk g) (threads_ (pool s)) !! g = Some th /\
    pool s' =
      set_idleThreadSize_ (Int32.wrap (idleThreadSize_ (pool s) + 1))
        (set_curThreadSize_ (Int32.wrap (curThreadSize_ (pool s) + 1))
           (set_threads_ (emplace g (Thread.mk g) (threads_ (pool s))) (pool s))) /\
    generateId_ s' = g + 1 /\
    tasks s' = tasks s /\ results s' = results s /\ world s' = world s /\
    trace s' = trace s ++ [cout ">>> create new thread..."; Thread.start th].
Proof.
  unfold submitTask_grow, new_thread, Thread.init. simpl.
  destruct (Z.eqb_spec (generateId_ s) Int32.INT32_MAX) as [|Hne];
    [discriminate|]. simpl.
  unfold deref, Thread.getId. simpl.
  destruct (emplace (generateId_ s) _ (threads_ (pool s)) !! generateId_ s)
    as [th|] eqn:Hth; [|discriminate].
  simpl. intros [= <-]. exists th. simpl.
  rewrite <- app_assoc. simpl. auto 10.
Qed.

Lemma submitTask_with_room {World : Type} (s : State World) sp woken res s' :
  Z.of_nat (length (taskQue_ (pool s)))
    < Int32.to_size_t (taskQueMaxThreshold_ (pool s)) ->
  submitTask sp woken s = Done (res, s') ->
  let p1 := set_taskSize_ (Int32.wrap (taskSize_ (pool s) + 1))
              (set_taskQue_ (taskQue_ (pool s) ++ [sp]) (pool s)) in
  let s1 := emit [notify_all notEmpty_] (set_pool p1 s) in
  exists s2 l tk,
    (if submitTask_grows p1 then submitTask_grow s1 else Done s1) = Done s2 /\
    sp = Some l /\ tasks s2 !! l = Some tk /\
    res = length (results s2) /\
    s' = set_tasks (<[l := Task.setResult (Some res) tk]> (tasks s2))
           (set_results (results s2 ++ [Result.init true]) s2).
Proof.
  intros Hroom. unfold submitTask, wait_for.
  destruct (Z.ltb_spec (Z.of_nat (length (taskQue_ (pool s))))
              (Int32.to_size_t (taskQueMaxThreshold_ (pool s)))); [|lia].
  simpl. intros Hdone.
  apply bind_Done in Hdone as (s2 & Hgrow & Hrest).
  exists s2.
  unfold make_shared_Result in Hrest. simpl in Hrest.
  apply bind_Done in Hrest as (s3 & Hset & [= <- <-]).
  unfold Task_setResult_at in Hset. destruct sp as [l|]; [|discriminate].
  simpl in Hset. destruct (tasks s2 !! l) as [tk|] eqn:Htk; [|discriminate].
  injection Hset as <-. exists l, tk. auto.
Qed.

(** X17. From submission to the awaiting side: a task submitted to an empty
    queue is the one the next worker takes; the worker runs its body once,
    and [get] on the handle that [submitTask] returned yields the value
    of the body. *)
Lemma submit_exec_get {World : Type} (s s1 : State World) (l : loc)
    (tk : Task.t World) woken (res : loc) now status (w : Worker) :
  tasks s !! l = Some tk ->
  taskQue_ (pool s) = [] ->
  0 < Int32.to_size_t (taskQueMaxThreshold_ (pool s)) ->
  submitTask (Some l) woken s = Done (res, s1) ->
  at_ w = LoopHead ->
  exists s2 s3 w3 results4,
    threadFunc now status w s1 = Done (goto (Exec (Some l)) w, s2) /\
    threadFunc now status (goto (Exec (Some l)) w) s2 = Done (w3, s3) /\
    world s3 = snd (Task.run tk (world s)) /\
    Result.get_at res (results s3) = Done (fst (Task.run tk (world s)), results4).
Proof.
  intros Htk Hq Hmax Hsub Hat.
  assert (Hroom : Z.of_nat (length (taskQue_ (pool s)))
                  < Int32.to_size_t (taskQueMaxThreshold_ (pool s))).
  { rewrite Hq. simpl. lia. }
  destruct (submitTask_with_room s (Some l) woken res s1 Hroom Hsub)
    as (s0 & l' & tk' & Hgrow & [= <-] & Htk' & -> & ->).
  assert (Hs0 : taskQue_ (pool s0) = [Some l] /\ tasks s0 = tasks s /\
                results s0 = results s /\ world s0 = world s).
  { destruct (submitTask_grows _).
    - apply submitTask_grow_Done in Hgrow
        as (th & _ & _ & -> & _ & -> & -> & -> & _).
      simpl. rewrite Hq. auto.
    - injection Hgrow as <-. simpl. rewrite Hq. auto. }
  destruct Hs0 as (Hq0 & Ht0 & Hr0 & Hw0).
  rewrite Ht0 in Htk'. rewrite Htk in Htk'. injection Htk' as <-.
  unfold threadFunc at 1. rewrite Hat. simpl. rewrite Hq0.
  destruct (Task.run tk (world s)) as [v wd] eqn:Hrun.
  eexists _, _, _, _. split; [reflexivity|].
  unfold threadFunc, threadFunc_pop. simpl.
  rewrite Ht0, Hr0, Hw0.
  rewrite list_lookup_insert_eq by (by eapply lookup_lt_Some).
  unfold Task.exec. simpl. rewrite Hrun.
  unfold Result.setVal_at.
  rewrite lookup_app_r by lia. rewrite Nat.sub_diag. simpl.
  split; [reflexivity|]. simpl. split; [reflexivity|].
  unfold Result.get_at.
  rewrite list_lookup_insert_eq by (rewrite length_app; simpl; lia).
  simpl. reflexivity.
Qed.

(** ** ThreadPool: the worker's pop *)

Lemma drain_S {World : Type} (n : nat) (s : State World) task rest :
  taskQue_ (pool s) = task :: rest ->
  drain (S n) s =
    (task :: fst (drain n (threadFunc_pop task rest s)),
     snd (drain n (threadFunc_pop task rest s))).
Proof.
  intros Hq. simpl. unfold threadFunc. simpl. rewrite Hq. simpl.
  destruct (drain n _); reflexivity.
Qed.

Lemma drain_queue {World : Type} (q : list (option loc)) : forall s : State World,
  taskQue_ (pool s) = q ->
  fst (drain (length q) s) = q /\ taskQue_ (pool (snd (drain (length q) s))) = [].
Proof.
  induction q as [|task rest IH]; intros s Hq; [simpl; auto|].
  change (length (task :: rest)) with (S (length rest)).
  rewrite (drain_S _ s task rest Hq). simpl.
  destruct (IH (threadFunc_pop task rest s)) as [-> ->]; [|auto].
  unfold threadFunc_pop. simpl.
  destruct (Z.of_nat (length rest) >? 0); reflexivity.
Qed.

(** C8. On a non-empty queue a worker at the loop head takes exactly the
    front task and leaves the rest in order, decrements [taskSize_],
    broadcasts [notEmpty_] exactly when tasks remain and then broadcasts
    [notFull_].  Since an admitted [submitTask] appends at the back,
    tasks leave the queue in the order they were submitted: draining a
    queue yields its tasks front to back. *)
Theorem threadFunc_pop_front {World : Type} (s : State World)
    (now : Z) (status : cv_status) (w : Worker)
    (task : option loc) (rest : list (option loc)) :
  at_ w = LoopHead ->
  taskQue_ (pool s) = task :: rest ->
  Int32.INT32_MIN < taskSize_ (pool s) <= Int32.INT32_MAX ->
  (exists s',
     threadFunc now status w s = Done (goto (Exec task) w, s') /\
     taskQue_ (pool s') = rest /\
     taskSize_ (pool s') = taskSize_ (pool s) - 1 /\
     trace s' = trace s
                ++ (match rest with [] => [] | _ => [notify_all notEmpty_] end)
                ++ [notify_all notFull_]) /\
  fst (drain (length (taskQue_ (pool s))) s) = taskQue_ (pool s) /\
  (forall sp woken res s2,
     Z.of_nat (length (taskQue_ (pool s)))
       < Int32.to_size_t (taskQueMaxThreshold_ (pool s)) ->
     submitTask sp woken s = Done (res, s2) ->
     taskQue_ (pool s2) = taskQue_ (pool s) ++ [sp]).
Proof.
  intros Hat Hq Hsize. split; [|split].
  - unfold threadFunc. rewrite Hat, Hq. eexists. split; [reflexivity|].
    unfold threadFunc_pop. simpl.
    assert (Hw : Int32.wrap (taskSize_ (pool s) - 1) = taskSize_ (pool s) - 1).
    { apply Int32Facts.wrap_in_range. unfold Int32.in_range in *.
      unfold Int32.INT32_MIN, Int32.INT32_MAX in *. lia. }
    destruct rest as [|t' rest']; simpl.
    + auto.
    + replace (Z.pos (Pos.of_succ_nat (length rest')) >? 0) with true
        by (symmetry; apply Z.gtb_lt; lia).
      simpl. rewrite <- app_assoc. auto.
  - apply drain_queue. reflexivity.
  - intros sp woken res s2 Hroom Hsub.
    destruct (submitTask_with_room s sp woken res s2 Hroom Hsub)
      as (s1 & l & tk & Hgrow & _ & _ & _ & ->). simpl.
    destruct (submitTask_grows _).
    + apply submitTask_grow_Done in Hgrow as (th & _ & _ & -> & _). reflexivity.
    + injection Hgrow as <-. reflexivity.
Qed.

Lemma threadFunc_pop_front_witness :
  exists s',
    threadFunc 0 no_timeout (mkWorker 0 0 LoopHead)
      (mkState
         (set_taskSize_ 2 (set_taskQue_ [Some 1%nat; Some 0%nat] ThreadPool.init))
         0 [] [] tt [])
    = Done (mkWorker 0 0 (Exec (Some 1%nat)), s') /\
    taskQue_ (pool s') = [Some 0%nat] /\
    taskSize_ (pool s') = 1 /\
    trace s' = [notify_all notEmpty_; notify_all notFull_].
Proof.
  destruct (threadFunc_pop_front
              (mkState
                 (set_taskSize_ 2
                    (set_taskQue_ [Some 1%nat; Some 0%nat] ThreadPool.init))
                 0 [] [] tt [])
              0 no_timeout (mkWorker 0 0 LoopHead) (Some 1%nat) [Some 0%nat])
    as [Hpop _].
  - reflexivity.
  - reflexivity.
  - simpl. unfold Int32.INT32_MIN, Int32.INT32_MAX. lia.
  - exact Hpop.
Defined.

(** ** ThreadPool: [taskSize_] counts the queue *)

Lemma start_launch_queue n : forall i p tr p' tr',
  start_launch n i p tr = Done (p', tr') ->
  taskQue_ p' = taskQue_ p /\ taskSize_ p' = taskSize_ p /\
  taskQueMaxThreshold_ p' = taskQueMaxThreshold_ p.
Proof.
  induction n as [|n IH]; intros i p tr p' tr'; simpl.
  - intros [= <- <-]. auto.
  - intros H. apply bind_Done in H as (th & _ & H).
    apply IH in H. simpl in H. exact H.
Qed.

Lemma start_queue {World : Type} (s s' : State World) n :
  start n s = Done s' ->
  taskQue_ (pool s') = taskQue_ (pool s) /\
  taskSize_ (pool s') = taskSize_ (pool s) /\
  taskQueMaxThreshold_ (pool s') = taskQueMaxThreshold_ (pool s).
Proof.
  unfold start. destruct (n <? 0); [discriminate|]. intros H.
  apply bind_Done in H as ([g m] & _ & H).
  apply bind_Done in H as ([p tr] & Hl & [= <-]).
  apply start_launch_queue in Hl. simpl in *. exact Hl.
Qed.

Lemma threadFunc_queue {World : Type} (s s' : State World) now status w w' :
  threadFunc now status w s = Done (w', s') ->
  taskQueMaxThreshold_ (pool s') = taskQueMaxThreshold_ (pool s) /\
  ((taskQue_ (pool s') = taskQue_ (pool s) /\
    taskSize_ (pool s') = taskSize_ (pool s)) \/
   (exists task, taskQue_ (pool s) = task :: taskQue_ (pool s') /\
      taskSize_ (pool s') = Int32.wrap (taskSize_ (pool s) - 1))).
Proof.
  unfold threadFunc. destruct (at_ w) as [| | | |task|].
  - intros [= <- <-]. auto.
  - destruct (taskQue_ (pool s)) as [|task rest] eqn:Hq.
    + destruct (isPoolRunning_ (pool s)); simpl.
      * destruct (PoolMode_eqb _ _); intros [= <- <-]; rewrite Hq; auto.
      * intros [= <- <-]. simpl. rewrite Hq. auto.
    + intros [= <- <-]. split.
      * unfold threadFunc_pop. simpl.
        destruct (Z.of_nat (length rest) >? 0); reflexivity.
      * right. exists task. unfold threadFunc_pop. simpl.
        destruct (Z.of_nat (length rest) >? 0); simpl; auto.
  - destruct status.
    + intros [= <- <-]. auto.
    + destruct (_ && _); intros [= <- <-]; simpl; auto.
  - intros [= <- <-]. auto.
  - intros H. apply bind_Done in H as (s1 & Hexec & [= <- <-]). simpl.
    assert (Hp : pool s1 = pool s).
    { destruct task as [l|]; [|by injection Hexec as <-].
      destruct (tasks s !! l) as [tk|]; [|discriminate].
      apply bind_Done in Hexec as ([rs wd] & _ & [= <-]). reflexivity. }
    rewrite Hp. auto.
  - discriminate.
Qed.

Lemma call_counts_queue {World : Type} (c : Call) (s s' : State World) :
  counts_queue (pool s) -> call c s = Done s' -> counts_queue (pool s').
Proof.
  unfold counts_queue. intros (Hsize & Hlen & Hmax).
  destruct c as [mode|n|n|n|body|sp woken|now status w| |]; simpl.
  - intros [= <-]. unfold on_pool, setMode, checkRunningState.
    destruct (isPoolRunning_ (pool s)); simpl; auto.
  - intros [= <-].
    unfold on_pool, setTaskQueMaxThreshold, checkRunningState,
      TASK_MAX_THRESHOLD.
    destruct (isPoolRunning_ (pool s)); simpl; [auto|].
    destruct (Z.leb_spec n 0), (Z.gtb_spec n Int32.INT32_MAX); simpl; auto.
    repeat split; auto; lia.
  - intros [= <-]. unfold on_pool, setThreadSizeThreshold, checkRunningState.
    destruct (isPoolRunning_ (pool s)); simpl; [auto|].
    destruct (negb _); simpl; [auto|].
    destruct (_ || _); simpl; auto.
  - intros H. apply start_queue in H as (-> & -> & ->). auto.
  - intros [= <-]. simpl. auto.
  - intros H. apply bind_Done in H as ([res s1] & Hsub & [= <-]).
    destruct (Z.ltb_spec (Z.of_nat (length (taskQue_ (pool s))))
                (Int32.to_size_t (taskQueMaxThreshold_ (pool s)))) as [Hroom|Hfull].
    + destruct (submitTask_with_room s sp woken res s1 Hroom Hsub)
        as (s2 & l & tk & Hgrow & _ & _ & _ & ->). simpl.
      assert (Hp : taskQue_ (pool s2) = taskQue_ (pool s) ++ [sp] /\
                   taskSize_ (pool s2) = Int32.wrap (taskSize_ (pool s) + 1) /\
                   taskQueMaxThreshold_ (pool s2) = taskQueMaxThreshold_ (pool s)).
      { destruct (submitTask_grows _).
        - apply submitTask_grow_Done in Hgrow as (th & _ & _ & -> & _). auto.
        - injection Hgrow as <-. auto. }
      destruct Hp as (-> & -> & ->).
      rewrite Int32Facts.to_size_t_nonneg in Hroom by lia.
      rewrite length_app. simpl.
      rewrite Int32Facts.wrap_in_range;
        unfold Int32.in_range, Int32.INT32_MIN; lia.
    + unfold submitTask, wait_for in Hsub.
      destruct (Z.ltb_spec (Z.of_nat (length (taskQue_ (pool s))))
                  (Int32.to_size_t (taskQueMaxThreshold_ (pool s)))); [lia|].
      destruct woken as [[|]|]; try discriminate.
      simpl in Hsub. injection Hsub as _ <-. simpl. auto.
  - intros H. apply bind_Done in H as ([w' s1] & Hstep & [= <-]).
    apply threadFunc_queue in Hstep as [-> [[-> ->]|(task & Hq & ->)]]; [auto|].
    rewrite Hq in Hsize, Hlen. simpl length in Hsize, Hlen.
    rewrite Int32Facts.wrap_in_range;
      unfold Int32.in_range, Int32.INT32_MIN, Int32.INT32_MAX in *; lia.
  - intros [= <-]. simpl. auto.
  - unfold destructor_wait. destruct (_ =? _); [|discriminate].
    intros [= <-]. auto.
Qed.

(** C9. In every state that a history of calls on the pool (the setters,
    [start], [submitTask] admitted or rejected, worker moves, the
    destructor) leads to from a freshly constructed pool, [taskSize_] is
    the number of tasks in [taskQue_]. *)
Theorem taskSize_counts_queue {World : Type} (w0 : World) (cs : list Call)
    (s : State World) :
  run cs (boot w0) = Some s ->
  taskSize_ (pool s) = Z.of_nat (length (taskQue_ (pool s))).
Proof.
  assert (Hgen : forall s0 : State World,
            counts_queue (pool s0) -> run cs s0 = Some s -> counts_queue (pool s)).
  { induction cs as [|c cs IH]; intros s0 Hinv; simpl.
    - intros [= <-]. exact Hinv.
    - destruct (call c s0) as [s1| |] eqn:Hc; [| |discriminate].
      + apply IH. eapply call_counts_queue; eauto.
      + apply IH. exact Hinv. }
  intros Hrun. apply (Hgen (boot w0)); [|exact Hrun].
  repeat split; simpl; unfold TASK_MAX_THRESHOLD, Int32.INT32_MAX; lia.
Qed.

Lemma taskSize_counts_queue_witness :
  exists s : State nat,
    run [call_setMode MODE_CACHED;
         call_start 1;
         call_make_shared_Task (fun n => (Any.of_data n, S n));
         call_make_shared_Task (fun n => (Any.of_data n, S n));
         call_submitTask (Some 0%nat) None;
         call_submitTask (Some 1%nat) None;
         call_threadFunc 0 no_timeout (mkWorker 0 0 LoopHead)]
      (boot 0%nat) = Some s /\
    taskQue_ (pool s) = [Some 1%nat] /\
    taskSize_ (pool s) = 1.
Proof.
  eexists. split; [vm_compute; reflexivity|]. split; [reflexivity|].
  apply (taskSize_counts_queue 0%nat
           [call_setMode MODE_CACHED;
            call_start 1;
            call_make_shared_Task (fun n => (Any.of_data n, S n));
            call_make_shared_Task (fun n => (Any.of_data n, S n));
            call_submitTask (Some 0%nat) None;
            call_submitTask (Some 1%nat) None;
            call_threadFunc 0 no_timeout (mkWorker 0 0 LoopHead)]).
  vm_compute. reflexivity.
Defined.

(** ** ThreadPool: thread ids *)

Lemma emplace_keys (g : Z) (th0 : Thread.t) (m : gmap Z Thread.t) :
  0 <= g ->
  (forall k th, m !! k = Some th -> 0 <= k < g) ->
  forall k th, emplace g th0 m !! k = Some th -> 0 <= k < g + 1.
Proof.
  intros Hg Hm k th. unfold emplace. destruct (m !! g) eqn:Hmg.
  - intros H. apply Hm in H. lia.
  - destruct (decide (g = k)) as [<-|Hne].
    + intros _. lia.
    + rewrite lookup_insert_ne by exact Hne. intros H. apply Hm in H. lia.
Qed.

Lemma start_create_keys n : forall g m g' m',
  0 <= g ->
  (forall k th, m !! k = Some th -> 0 <= k < g) ->
  start_create n g m = Done (g', m') ->
  0 <= g' /\ (forall k th, m' !! k = Some th -> 0 <= k < g').
Proof.
  induction n as [|n IH]; intros g m g' m' Hg Hm; simpl.
  - intros [= <- <-]. auto.
  - unfold new_thread, Thread.init.
    destruct (g =? Int32.INT32_MAX); [discriminate|]. simpl.
    apply IH; [lia|]. unfold Thread.getId. simpl.
    by apply emplace_keys.
Qed.

Lemma start_launch_threads n : forall i p tr p' tr',
  start_launch n i p tr = Done (p', tr') -> threads_ p' = threads_ p.
Proof.
  induction n as [|n IH]; intros i p tr p' tr'; simpl.
  - by intros [= <- <-].
  - intros H. apply bind_Done in H as (th & _ & H). by apply IH in H.
Qed.

Lemma threadFunc_threads {World : Type} (s s' : State World) now status w w' :
  threadFunc now status w s = Done (w', s') ->
  generateId_ s' = generateId_ s /\
  (threads_ (pool s') = threads_ (pool s) \/
   threads_ (pool s') = delete (threadid w) (threads_ (pool s))).
Proof.
  unfold threadFunc. destruct (at_ w) as [| | | |task|].
  - intros [= <- <-]. auto.
  - destruct (taskQue_ (pool s)) as [|task rest].
    + destruct (isPoolRunning_ (pool s)); simpl.
      * destruct (PoolMode_eqb _ _); intros [= <- <-]; auto.
      * intros [= <- <-]. simpl. auto.
    + intros [= <- <-]. unfold threadFunc_pop. simpl.
      destruct (Z.of_nat (length rest) >? 0); simpl; auto.
  - destruct status.
    + intros [= <- <-]. auto.
    + destruct (_ && _); intros [= <- <-]; simpl; auto.
  - intros [= <- <-]. auto.
  - intros H. apply bind_Done in H as (s1 & Hexec & [= <- <-]). simpl.
    destruct task as [l|]; [|injection Hexec as <-; auto].
    destruct (tasks s !! l) as [tk|]; [|discriminate].
    apply bind_Done in Hexec as ([rs wd] & _ & [= <-]). simpl. auto.
  - discriminate.
Qed.

Lemma call_fresh_ids {World : Type} (c : Call) (s s' : State World) :
  fresh_ids s -> call c s = Done s' -> fresh_ids s'.
Proof.
  unfold fresh_ids. intros [Hg Hkeys].
  destruct c as [mode|n|n|n|body|sp woken|now status w| |]; simpl.
  - intros [= <-]. unfold on_pool, setMode.
    destruct (checkRunningState _); simpl; auto.
  - intros [= <-]. unfold on_pool, setTaskQueMaxThreshold.
    destruct (checkRunningState _); simpl; [auto|].
    destruct (_ || _); simpl; auto.
  - intros [= <-]. unfold on_pool, setThreadSizeThreshold.
    destruct (checkRunningState _); simpl; [auto|].
    destruct (negb _); simpl; [auto|].
    destruct (_ || _); simpl; auto.
  - unfold start. destruct (n <? 0); [discriminate|]. intros H.
    apply bind_Done in H as ([g m] & Hc & H).
    apply bind_Done in H as ([p tr] & Hl & [= <-]).
    apply start_launch_threads in Hl. simpl in *. rewrite Hl.
    eapply start_create_keys; eauto.
  - intros [= <-]. simpl. auto.
  - intros H. apply bind_Done in H as ([res s1] & Hsub & [= <-]).
    destruct (Z.ltb_spec (Z.of_nat (length (taskQue_ (pool s))))
                (Int32.to_size_t (taskQueMaxThreshold_ (pool s)))) as [Hroom|Hfull].
    + destruct (submitTask_with_room s sp woken res s1 Hroom Hsub)
        as (s2 & l & tk & Hgrow & _ & _ & _ & ->). simpl.
      destruct (submitTask_grows _).
      * apply submitTask_grow_Done in Hgrow as (th & _ & _ & -> & -> & _).
        simpl. split; [lia|]. by apply emplace_keys.
      * injection Hgrow as <-. simpl. auto.
    + unfold submitTask, wait_for in Hsub.
      destruct (Z.ltb_spec (Z.of_nat (length (taskQue_ (pool s))))
                  (Int32.to_size_t (taskQueMaxThreshold_ (pool s)))); [lia|].
      destruct woken as [[|]|]; try discriminate.
      simpl in Hsub. injection Hsub as _ <-. simpl. auto.
  - intros H. apply bind_Done in H as ([w' s1] & Hstep & [= <-]).
    apply threadFunc_threads in Hstep as [-> [->| ->]]; [auto|].
    split; [exact Hg|]. intros k th Hk.
    apply lookup_delete_Some in Hk as [_ Hk]. eauto.
  - intros [= <-]. simpl. auto.
  - unfold destructor_wait. destruct (_ =? _); [|discriminate].
    intros [= <-]. auto.
Qed.

(** X18. After any history from a freshly constructed pool, no thread of
    the pool sits under the id that the next [Thread] will get. *)
Lemma run_generateId_fresh {World : Type} (w0 : World) (cs : list Call)
    (s : State World) :
  run cs (boot w0) = Some s ->
  0 <= generateId_ s /\ threads_ (pool s) !! generateId_ s = None.
Proof.
  assert (Hgen : forall s0 : State World,
            fresh_ids s0 -> run cs s0 = Some s -> fresh_ids s).
  { induction cs as [|c cs IH]; intros s0 Hinv; simpl.
    - intros [= <-]. exact Hinv.
    - destruct (call c s0) as [s1| |] eqn:Hc; [| |discriminate].
      + apply IH. eapply call_fresh_ids; eauto.
      + apply IH. exact Hinv. }
  intros Hrun. destruct (Hgen (boot w0)) as [Hg Hkeys]; [|exact Hrun|].
  - split; simpl; [lia|]. intros k th. rewrite lookup_empty. discriminate.
  - split; [exact Hg|].
    destruct (threads_ (pool s) !! generateId_ s) as [th|] eqn:Hth; [|reflexivity].
    apply Hkeys in Hth. lia.
Qed.

(** ** ThreadPool: growth in [submitTask] *)

Lemma submitTask_grows_spec (p : ThreadPool.t) :
  submitTask_grows p = true <->
  poolMode_ p = MODE_CACHED /\ taskSize_ p > idleThreadSize_ p /\
  curThreadSize_ p < threadSizeThreshold_ p.
Proof.
  unfold submitTask_grows. rewrite !andb_true_iff, Z.gtb_gt, Z.ltb_lt.
  destruct (poolMode_ p); simpl; intuition (congruence || lia).
Qed.

(** C6. A [submitTask] that finds room in the queue starts a new worker
    exactly when the mode is [MODE_CACHED], [taskSize_] (after the
    increment) exceeds [idleThreadSize_], and [curThreadSize_] is below
    [threadSizeThreshold_]; it then adds one thread under the fresh id
    [generateId_], starts that one thread, and raises [curThreadSize_]
    and [idleThreadSize_] by one each; otherwise the thread map and both
    counters are as before.  In every case, admitted or rejected,
    [curThreadSize_ <= threadSizeThreshold_] is preserved. *)
Theorem submitTask_grow_iff {World : Type} (s : State World) :
  (forall l tk woken,
     tasks s !! l = Some tk ->
     Z.of_nat (length (taskQue_ (pool s)))
       < Int32.to_size_t (taskQueMaxThreshold_ (pool s)) ->
     Int32.in_range (curThreadSize_ (pool s)) ->
     Int32.in_range (threadSizeThreshold_ (pool s)) ->
     Int32.INT32_MIN <= idleThreadSize_ (pool s) < Int32.INT32_MAX ->
     generateId_ s < Int32.INT32_MAX ->
     threads_ (pool s) !! generateId_ s = None ->
     exists res s',
       submitTask (Some l) woken s = Done (res, s') /\
       results s' !! res = Some (Result.init true) /\
       let grows :=
         poolMode_ (pool s) = MODE_CACHED /\
         taskSize_ (pool s') > idleThreadSize_ (pool s) /\
         curThreadSize_ (pool s) < threadSizeThreshold_ (pool s) in
       (grows ->
          threads_ (pool s')
            = <[generateId_ s := Thread.mk (generateId_ s)]> (threads_ (pool s)) /\
          size (threads_ (pool s')) = S (size (threads_ (pool s))) /\
          curThreadSize_ (pool s') = curThreadSize_ (pool s) + 1 /\
          idleThreadSize_ (pool s') = idleThreadSize_ (pool s) + 1 /\
          trace s' = trace s ++ [notify_all notEmpty_;
                                 cout ">>> create new thread...";
                                 thread_start (generateId_ s)]) /\
       (~ grows ->
          threads_ (pool s') = threads_ (pool s) /\
          curThreadSize_ (pool s') = curThreadSize_ (pool s) /\
          idleThreadSize_ (pool s') = idleThreadSize_ (pool s) /\
          trace s' = trace s ++ [notify_all notEmpty_])) /\
  (forall sp woken res s',
     Int32.in_range (curThreadSize_ (pool s)) ->
     Int32.in_range (threadSizeThreshold_ (pool s)) ->
     submitTask sp woken s = Done (res, s') ->
     curThreadSize_ (pool s) <= threadSizeThreshold_ (pool s) ->
     curThreadSize_ (pool s') <= threadSizeThreshold_ (pool s')).
Proof.
  split.
  - intros l tk woken Htk Hroom Hcur Hthr Hidle Hgid Hfresh.
    unfold submitTask, wait_for.
    destruct (Z.ltb_spec (Z.of_nat (length (taskQue_ (pool s))))
                (Int32.to_size_t (taskQueMaxThreshold_ (pool s)))); [|lia].
    simpl.
    set (p1 := set_taskSize_ _ _).
    pose proof (submitTask_grows_spec p1) as Hspec.
    destruct (submitTask_grows p1) eqn:Hg.
    + destruct (proj1 Hspec eq_refl) as (Hmode & Hsize & Hlt).
      subst p1. simpl in Hmode, Hsize, Hlt.
      unfold submitTask_grow, new_thread, Thread.init. simpl.
      destruct (Z.eqb_spec (generateId_ s) Int32.INT32_MAX); [lia|]. simpl.
      unfold deref, emplace, Thread.getId. simpl. rewrite Hfresh.
      rewrite lookup_insert_eq. simpl. rewrite Htk. simpl.
      eexists _, _. split; [reflexivity|]. simpl.
      split; [rewrite lookup_app_r by lia; by rewrite Nat.sub_diag|].
      split.
      * intros _. split; [reflexivity|].
        split; [by apply map_size_insert_None|].
        unfold Int32.in_range, Int32.INT32_MIN, Int32.INT32_MAX in *.
        rewrite !Int32Facts.wrap_in_range
          by (unfold Int32.in_range, Int32.INT32_MIN, Int32.INT32_MAX; lia).
        repeat split. rewrite <- !app_assoc. reflexivity.
      * intros Hn. exfalso. apply Hn. auto.
    + simpl. rewrite Htk. simpl.
      eexists _, _. split; [reflexivity|]. simpl.
      split; [rewrite lookup_app_r by lia; by rewrite Nat.sub_diag|].
      split.
      * intros Hyes. apply Hspec in Hyes. discriminate.
      * intros _. auto.
  - intros sp woken res s' Hcur Hthr Hsub Hle.
    destruct (Z.ltb_spec (Z.of_nat (length (taskQue_ (pool s))))
                (Int32.to_size_t (taskQueMaxThreshold_ (pool s)))) as [Hroom|Hfull].
    + destruct (submitTask_with_room s sp woken res s' Hroom Hsub)
        as (s2 & l & tk & Hgrow & _ & _ & _ & ->). simpl.
      destruct (submitTask_grows _) eqn:Hg.
      * apply submitTask_grows_spec in Hg as (_ & _ & Hlt). simpl in Hlt.
        apply submitTask_grow_Done in Hgrow as (th & _ & _ & -> & _). simpl.
        unfold Int32.in_range, Int32.INT32_MIN, Int32.INT32_MAX in *.
        rewrite Int32Facts.wrap_in_range
          by (unfold Int32.in_range, Int32.INT32_MIN, Int32.INT32_MAX; lia).
        lia.
      * injection Hgrow as <-. simpl. exact Hle.
    + unfold submitTask, wait_for in Hsub.
      destruct (Z.ltb_spec (Z.of_nat (length (taskQue_ (pool s))))
                  (Int32.to_size_t (taskQueMaxThreshold_ (pool s)))); [lia|].
      destruct woken as [[|]|]; try discriminate.
      simpl in Hsub. injection Hsub as _ <-. simpl. exact Hle.
Qed.

Lemma submitTask_grow_iff_witness :
  exists res s',
    submitTask (Some 0%nat) None
      (mkState (set_poolMode_ MODE_CACHED ThreadPool.init) 0
         [Task.init (fun n : nat => (Any.of_data n, S n))] [] 0%nat [])
    = Done (res, s') /\
    curThreadSize_ (pool s') = 1 /\
    idleThreadSize_ (pool s') = 1 /\
    size (threads_ (pool s')) = 1%nat.
Proof.
  destruct (submitTask_grow_iff
              (mkState (set_poolMode_ MODE_CACHED ThreadPool.init) 0
                 [Task.init (fun n : nat => (Any.of_data n, S n))] [] 0%nat []))
    as [Hroomy _].
  destruct (Hroomy 0%nat (Task.init (fun n : nat => (Any.of_data n, S n))) None)
    as (res & s' & Hsub & _ & Hgrows & _).
  - reflexivity.
  - vm_compute. reflexivity.
  - vm_compute. split; discriminate.
  - vm_compute. split; discriminate.
  - vm_compute. split; [discriminate|reflexivity].
  - vm_compute. reflexivity.
  - reflexivity.
  - exists res, s'. split; [exact Hsub|].
    assert (Hsize : taskSize_ (pool s') = 1).
    { vm_compute in Hsub. injection Hsub as _ <-. reflexivity. }
    destruct Hgrows as (_ & Hmap & Hcur & Hidle & _).
    + simpl. rewrite Hsize. repeat split; vm_compute; reflexivity.
    + simpl in *. auto.
Defined.

(** ** ThreadPool: retirement of workers *)

Lemma duration_cast_seconds_gt (ticks k : Z) :
  0 <= k ->
  duration_cast_seconds ticks > k ->
  ticks >= (k + 1) * ticks_per_second.
Proof.
  unfold duration_cast_seconds, ticks_per_second. intros Hk Hq.
  destruct (Z_lt_le_dec ticks 0) as [Hneg|Hpos].
  - replace ticks with (- (- ticks)) in Hq by lia.
    rewrite Z.quot_opp_l in Hq by lia.
    rewrite Z.quot_div_nonneg in Hq by lia.
    pose proof (Z.div_pos (- ticks) 1000000000). lia.
  - rewrite Z.quot_div_nonneg in Hq by lia.
    pose proof (Z.mul_div_le ticks 1000000000). lia.
Qed.

(** A worker gets into the timed wait only in cached mode, and changes
    nothing on the way. *)
Lemma threadFunc_enters_WaitFor {World : Type} (s s' : State World)
    now status w w' :
  threadFunc now status w s = Done (w', s') ->
  at_ w' = WaitFor ->
  at_ w = LoopHead /\ poolMode_ (pool s) = MODE_CACHED /\ s' = s.
Proof.
  unfold threadFunc. destruct (at_ w) as [| | | |task|].
  - intros [= <- <-]. discriminate.
  - destruct (taskQue_ (pool s)) as [|task rest].
    + destruct (isPoolRunning_ (pool s)); simpl.
      * destruct (poolMode_ (pool s)); simpl; intros [= <- <-];
          [discriminate|auto].
      * intros [= <- <-]. discriminate.
    + intros [= <- <-]. discriminate.
  - destruct status; [intros [= <- <-]; discriminate|].
    destruct (_ && _); intros [= <- <-]; discriminate.
  - intros [= <- <-]. discriminate.
  - intros H. apply bind_Done in H as (s1 & _ & [= <- <-]). discriminate.
  - discriminate.
Qed.

(** C7. Take a running pool with [0 <= initThreadSize_ <= curThreadSize_]
    and a worker that stands in the timed wait only if the mode is
    [MODE_CACHED] (which is how it gets there, [threadFunc_enters_WaitFor]).
    A move of the worker ends [threadFunc]
    only from the timed wait of cached mode, on a timeout, with more than
    60 seconds since the worker's last task and with
    [curThreadSize_ > initThreadSize_]; it then lowers [curThreadSize_]
    by one.  Every other move leaves [curThreadSize_] as it is.  So every
    move keeps [initThreadSize_ <= curThreadSize_], and in fixed mode no
    move ends the worker or changes [curThreadSize_]. *)
Theorem threadFunc_retire {World : Type} (s s' : State World)
    (now : Z) (status : cv_status) (w w' : Worker) :
  threadFunc now status w s = Done (w', s') ->
  isPoolRunning_ (pool s) = true ->
  (at_ w = WaitFor -> poolMode_ (pool s) = MODE_CACHED) ->
  0 <= initThreadSize_ (pool s) <= curThreadSize_ (pool s) ->
  curThreadSize_ (pool s) <= Int32.INT32_MAX ->
  (at_ w' = Returned ->
     poolMode_ (pool s) = MODE_CACHED /\
     at_ w = WaitFor /\ status = timeout /\
     now - lastTime w > THREAD_MAX_IDLE_TIME * ticks_per_second /\
     curThreadSize_ (pool s) > initThreadSize_ (pool s) /\
     curThreadSize_ (pool s') = curThreadSize_ (pool s) - 1 /\
     threads_ (pool s') = delete (threadid w) (threads_ (pool s))) /\
  (at_ w' <> Returned ->
     curThreadSize_ (pool s') = curThreadSize_ (pool s) /\
     threads_ (pool s') = threads_ (pool s)) /\
  initThreadSize_ (pool s') = initThreadSize_ (pool s) /\
  initThreadSize_ (pool s') <= curThreadSize_ (pool s') /\
  (poolMode_ (pool s) = MODE_FIXED ->
     at_ w' <> Returned /\
     curThreadSize_ (pool s') = curThreadSize_ (pool s)).
Proof.
  intros Hstep Hrun Hwait Hfloor Hmax.
  unfold threadFunc in Hstep. destruct (at_ w) as [| | | |task|] eqn:Hat.
  - injection Hstep as <- <-. simpl.
    repeat split; try discriminate; auto; lia.
  - destruct (taskQue_ (pool s)) as [|task rest].
    + rewrite Hrun in Hstep. simpl in Hstep.
      destruct (PoolMode_eqb _ _); injection Hstep as <- <-; simpl;
        repeat split; try discriminate; auto; lia.
    + injection Hstep as <- <-. unfold threadFunc_pop. simpl.
      destruct (Z.of_nat (length rest) >? 0); simpl;
        repeat split; try discriminate; auto; lia.
  - specialize (Hwait eq_refl). destruct status.
    + injection Hstep as <- <-. simpl.
      repeat split; try discriminate; auto; try lia; congruence.
    + destruct (Z.gtb_spec (duration_cast_seconds (now - lastTime w))
                  THREAD_MAX_IDLE_TIME) as [Hidle|Hidle];
      destruct (Z.gtb_spec (Int32.to_size_t (curThreadSize_ (pool s)))
                  (initThreadSize_ (pool s))) as [Hgt|Hgt];
      simpl in Hstep; injection Hstep as <- <-; simpl;
      try (repeat split; try discriminate; auto; try lia; congruence).
      rewrite Int32Facts.to_size_t_nonneg in Hgt by lia.
      assert (Hw : Int32.wrap (curThreadSize_ (pool s) - 1)
                   = curThreadSize_ (pool s) - 1).
      { apply Int32Facts.wrap_in_range.
        unfold Int32.in_range, Int32.INT32_MIN, Int32.INT32_MAX in *. lia. }
      rewrite Hw.
      pose proof (duration_cast_seconds_gt (now - lastTime w)
                    THREAD_MAX_IDLE_TIME) as Hd.
      unfold THREAD_MAX_IDLE_TIME, ticks_per_second in *.
      repeat split; try congruence; try lia.
  - injection Hstep as <- <-. simpl.
    repeat split; try discriminate; auto; lia.
  - apply bind_Done in Hstep as (s1 & Hexec & [= <- <-]). simpl.
    assert (Hp : pool s1 = pool s).
    { destruct task as [l|]; [|by injection Hexec as <-].
      destruct (tasks s !! l) as [tk|]; [|discriminate].
      apply bind_Done in Hexec as ([rs wd] & _ & [= <-]). reflexivity. }
    rewrite Hp. repeat split; try discriminate; auto; lia.
  - discriminate.
Qed.

Lemma threadFunc_retire_witness :
  let s := mkState
             (set_curThreadSize_ 3
                (set_initThreadSize_ 2
                   (set_isPoolRunning_ true
                      (set_poolMode_ MODE_CACHED ThreadPool.init))))
             3 [] [] tt [] in
  exists s',
    threadFunc 61000000000 timeout (mkWorker 2 0 WaitFor) s
      = Done (mkWorker 2 0 Returned, s') /\
    curThreadSize_ (pool s') = 2 /\
    initThreadSize_ (pool s') <= curThreadSize_ (pool s').
Proof.
  intros s. eexists. split; [vm_compute; reflexivity|].
  destruct (threadFunc_retire s _ 61000000000 timeout (mkWorker 2 0 WaitFor)
              (mkWorker 2 0 Returned) eq_refl)
    as (Hret & _ & _ & Hfloor & _).
  - reflexivity.
  - reflexivity.
  - vm_compute. split; discriminate.
  - vm_compute. discriminate.
  - split; [|exact Hfloor]. destruct Hret as (_ & _ & _ & _ & _ & Hcur & _).
    + reflexivity.
    + exact Hcur.
Defined.

(** * Further properties of the code *)

(** ** Semaphore *)

(** X1. On a live semaphore whose count is a non-negative [int] below
    [INT32_MAX], a [post] followed by a [wait] gives the semaphore back
    as it was, and the [wait] does not block. *)
Theorem Semaphore_post_wait (s : Semaphore.t) :
  Semaphore.isExit_ s = false ->
  0 <= Semaphore.resLimit_ s < Int32.INT32_MAX ->
  exists s1,
    Semaphore.post s = Done s1 /\
    Semaphore.resLimit_ s1 = Semaphore.resLimit_ s + 1 /\
    Semaphore.wait s1 = Done s.
Proof.
  intros Hlive Hlim. destruct s as [e c]. simpl in *. subst e.
  unfold Semaphore.post, Semaphore.wait. simpl.
  destruct (Z.eqb_spec c Int32.INT32_MAX); [lia|].
  eexists. split; [reflexivity|]. simpl. split; [reflexivity|].
  destruct (Z.leb_spec (c + 1) 0); [lia|].
  f_equal. f_equal. lia.
Qed.

Lemma Semaphore_post_wait_witness :
  exists s1,
    Semaphore.post (Semaphore.init 0) = Done s1 /\
    Semaphore.resLimit_ s1 = 1 /\
    Semaphore.wait s1 = Done (Semaphore.init 0).
Proof.
  apply (Semaphore_post_wait (Semaphore.init 0)).
  - reflexivity.
  - simpl. unfold Int32.INT32_MAX. lia.
Defined.


Lemma Semaphore_run_live ops : forall s0 s,
  Semaphore.run ops s0 = Some s ->
  Semaphore.isExit_ s = false ->
  Semaphore.isExit_ s0 = false /\
  Semaphore.resLimit_ s
    = Semaphore.resLimit_ s0 + Semaphore.posts ops - Semaphore.acquired ops s0.
Proof.
  induction ops as [|o ops IH]; intros s0 s; simpl.
  - intros [= <-] Hlive. split; [exact Hlive|lia].
  - destruct (Semaphore.step o s0) as [s1| |] eqn:Hstep; [| |discriminate].
    + intros Hrun Hlive. destruct (IH s1 s Hrun Hlive) as [Hlive1 Hbal].
      destruct o; simpl in Hstep.
      * unfold Semaphore.wait in Hstep.
        destruct (Semaphore.isExit_ s0) eqn:He.
        { injection Hstep as <-. congruence. }
        destruct (Semaphore.resLimit_ s0 <=? 0); [discriminate|].
        injection Hstep as <-. simpl in *. split; [reflexivity|lia].
      * unfold Semaphore.post in Hstep.
        destruct (Semaphore.isExit_ s0) eqn:He.
        { injection Hstep as <-. congruence. }
        destruct (Semaphore.resLimit_ s0 =? Int32.INT32_MAX); [discriminate|].
        injection Hstep as <-. simpl in *. split; [reflexivity|lia].
      * injection Hstep as <-. simpl in Hlive1. discriminate.
    + intros Hrun Hlive. destruct (IH s0 s Hrun Hlive) as [Hlive0 Hbal].
      split; [exact Hlive0|].
      destruct o; simpl in Hstep; try discriminate.
      * lia.
      * unfold Semaphore.post in Hstep.
        destruct (Semaphore.isExit_ s0), (Semaphore.resLimit_ s0 =? Int32.INT32_MAX);
          discriminate.
Qed.

(** X3. On a semaphore that is still live at the end of a history, the
    count is the initial count plus the posts minus the waits that
    returned; so, from a non-negative initial count, no more waits have
    returned than the initial count and the posts provide. *)
Theorem Semaphore_run_balance (ops : list Semaphore.op) (s0 s : Semaphore.t) :
  Semaphore.run ops s0 = Some s ->
  Semaphore.isExit_ s = false ->
  0 <= Semaphore.resLimit_ s0 ->
  Semaphore.resLimit_ s
    = Semaphore.resLimit_ s0 + Semaphore.posts ops - Semaphore.acquired ops s0 /\
  Semaphore.acquired ops s0 <= Semaphore.resLimit_ s0 + Semaphore.posts ops.
Proof.
  intros Hrun Hlive H0.
  destruct (Semaphore_run_live ops s0 s Hrun Hlive) as [_ Hbal].
  split; [exact Hbal|].
  assert (Hnn : 0 <= Semaphore.resLimit_ s).
  { revert Hrun H0. clear. revert s0.
    induction ops as [|o ops IH]; intros s0; simpl.
    - intros [= <-] H0. exact H0.
    - destruct (Semaphore.step o s0) as [s1| |] eqn:Hs; [| |discriminate].
      + intros Hrun H0. apply (IH s1 Hrun).
        eapply Semaphore_step_nonneg; eauto.
      + intros Hrun H0. by apply (IH s0). }
  lia.
Qed.

Lemma Semaphore_run_balance_witness :
  Semaphore.acquired
    [Semaphore.Wait; Semaphore.Post; Semaphore.Wait; Semaphore.Wait;
     Semaphore.Post; Semaphore.Post]
    (Semaphore.init 0)
  <= 0 + 3.
Proof.
  apply (Semaphore_run_balance
           [Semaphore.Wait; Semaphore.Post; Semaphore.Wait; Semaphore.Wait;
            Semaphore.Post; Semaphore.Post]
           (Semaphore.init 0) (Semaphore.mk false 2)).
  - reflexivity.
  - reflexivity.
  - simpl. lia.
Defined.

(** ** Result *)

(** X4. A valid handle is good for one hand-over: before [setVal] a
    [get] blocks; after one [setVal v] the first [get] returns [v] and
    leaves the value slot empty, and a second [get] blocks again. *)
Theorem Result_get_one_shot (r : Result.t) (v : Any.t) :
  Result.isValid_ r = true ->
  Semaphore.isExit_ (Result.sem_ r) = false ->
  Semaphore.resLimit_ (Result.sem_ r) = 0 ->
  Result.get r = Blocks /\
  exists r1 r2,
    Result.setVal v r = Done r1 /\
    Result.get r1 = Done (v, r2) /\
    Result.any_ r2 = Any.empty /\
    Result.get r2 = Blocks.
Proof.
  intros Hvalid Hlive Hzero. destruct r as [a [e c] valid]. simpl in *.
  subst valid e c. split; [reflexivity|].
  eexists _, _. repeat split; reflexivity.
Qed.

Lemma Result_get_one_shot_witness :
  Result.get (Result.init true) = Blocks /\
  exists r1 r2,
    Result.setVal (Any.of_data 3) (Result.init true) = Done r1 /\
    Result.get r1 = Done (Any.of_data 3, r2) /\
    Result.any_ r2 = Any.empty /\
    Result.get r2 = Blocks.
Proof.
  apply (Result_get_one_shot (Result.init true) (Any.of_data 3));
    reflexivity.
Defined.

(** X5. [setVal] overwrites: after two [setVal]s on a valid live handle
    the first [get] returns the second value, the first value is gone,
    and the next [get] does not block but returns an [Any] with a null
    [base_]. *)
Theorem Result_setVal_twice (r : Result.t) (v1 v2 : Any.t) :
  Result.isValid_ r = true ->
  Semaphore.isExit_ (Result.sem_ r) = false ->
  0 <= Semaphore.resLimit_ (Result.sem_ r) < Int32.INT32_MAX - 1 ->
  exists r1 r2 r3 r4,
    Result.setVal v1 r = Done r1 /\
    Result.setVal v2 r1 = Done r2 /\
    Result.get r2 = Done (v2, r3) /\
    Result.get r3 = Done (Any.empty, r4) /\
    Semaphore.resLimit_ (Result.sem_ r4) = Semaphore.resLimit_ (Result.sem_ r).
Proof.
  intros Hvalid Hlive Hlim. destruct r as [a [e c] valid]. simpl in *.
  subst valid e.
  exists (Result.mk v1 (Semaphore.mk false (c + 1)) true),
         (Result.mk v2 (Semaphore.mk false (c + 1 + 1)) true),
         (Result.mk Any.empty (Semaphore.mk false (c + 1 + 1 - 1)) true),
         (Result.mk Any.empty (Semaphore.mk false (c + 1 + 1 - 1 - 1)) true).
  unfold Result.setVal, Result.get, Semaphore.post, Semaphore.wait. simpl.
  rewrite !(proj2 (Z.eqb_neq _ _)) by lia.
  rewrite !(proj2 (Z.leb_gt _ _)) by lia.
  simpl. repeat split. lia.
Qed.

Lemma Result_setVal_twice_witness :
  exists r1 r2 r3 r4,
    Result.setVal (Any.of_data 1) (Result.init true) = Done r1 /\
    Result.setVal (Any.of_data 2) r1 = Done r2 /\
    Result.get r2 = Done (Any.of_data 2, r3) /\
    Result.get r3 = Done (Any.empty, r4) /\
    Semaphore.resLimit_ (Result.sem_ r4) = 0.
Proof.
  apply (Result_setVal_twice (Result.init true) (Any.of_data 1) (Any.of_data 2)).
  - reflexivity.
  - reflexivity.
  - simpl. unfold Int32.INT32_MAX. lia.
Defined.

(** ** Task *)

Lemma Result_setVal_isValid v r r' :
  Result.setVal v r = Done r' -> Result.isValid_ r' = Result.isValid_ r.
Proof.
  unfold Result.setVal. intros H.
  apply bind_Done in H as (sem' & _ & [= <-]). reflexivity.
Qed.

Lemma Task_exec_touches_one {World : Type} (task : Task.t World)
    (results results' : list Result.t) (w w' : World) :
  Task.exec task results w = Done (results', w') ->
  length results' = length results /\
  (forall l, Task.result_ task <> Some l -> results' !! l = results !! l) /\
  (forall l r, results !! l = Some r ->
     exists r', results' !! l = Some r' /\
                Result.isValid_ r' = Result.isValid_ r).
Proof.
  unfold Task.exec. destruct (Task.result_ task) as [res|].
  - destruct (Task.run task w) as [v wd]. intros H.
    apply bind_Done in H as (rs & Hset & [= <- <-]).
    unfold Result.setVal_at in Hset.
    destruct (results !! res) as [r0|] eqn:Hres; [|discriminate].
    apply bind_Done in Hset as (r0' & Hset & [= <-]).
    apply Result_setVal_isValid in Hset.
    split; [apply length_insert|]. split.
    + intros l Hl. apply list_lookup_insert_ne. congruence.
    + intros l r Hl. destruct (decide (res = l)) as [<-|Hne].
      * exists r0'. rewrite list_lookup_insert_eq by (by eapply lookup_lt_Some).
        split; [reflexivity|]. congruence.
      * exists r. rewrite list_lookup_insert_ne by exact Hne. auto.
  - intros [= <- <-]. split; [reflexivity|]. split; [auto|]. eauto.
Qed.

(** ** ThreadPool: start *)

Lemma start_create_spec n : forall g m,
  0 <= g -> g + Z.of_nat n <= Int32.INT32_MAX ->
  (forall k, g <= k -> m !! k = None) ->
  exists m',
    start_create n g m = Done (g + Z.of_nat n, m') /\
    forall k, m' !! k = if decide (g <= k < g + Z.of_nat n)
                        then Some (Thread.mk k) else m !! k.
Proof.
  induction n as [|n IH]; intros g m Hg Hmax Hfree.
  - exists m. simpl. split; [f_equal; f_equal; lia|].
    intros k. destruct (decide _); [lia|reflexivity].
  - simpl. unfold new_thread, Thread.init.
    destruct (Z.eqb_spec g Int32.INT32_MAX); [lia|]. simpl.
    unfold emplace, Thread.getId. simpl. rewrite (Hfree g) by lia.
    destruct (IH (g + 1) (<[g := Thread.mk g]> m)) as (m' & Hc & Hm');
      [lia|lia| |].
    { intros k Hk. rewrite lookup_insert_ne by lia. apply Hfree. lia. }
    exists m'. rewrite Hc. split; [f_equal; f_equal; lia|].
    intros k. rewrite Hm'.
    destruct (decide (g + 1 <= k < g + 1 + Z.of_nat n)),
             (decide (g <= k < g + Z.of_nat (S n))); try lia; try reflexivity.
    + assert (k = g) as -> by lia. by rewrite lookup_insert_eq.
    + by rewrite lookup_insert_ne by lia.
Qed.

Lemma start_launch_spec n : forall i p tr,
  (forall k, i <= k < i + Z.of_nat n -> threads_ p !! k = Some (Thread.mk k)) ->
  Int32.INT32_MIN <= idleThreadSize_ p ->
  idleThreadSize_ p + Z.of_nat n <= Int32.INT32_MAX ->
  exists p',
    start_launch n i p tr
      = Done (p', tr ++ (thread_start <$> seqZ i (Z.of_nat n))) /\
    idleThreadSize_ p' = idleThreadSize_ p + Z.of_nat n /\
    p' = set_idleThreadSize_ (idleThreadSize_ p') p.
Proof.
  induction n as [|n IH]; intros i p tr Hth Hmin Hmax.
  - exists p. simpl. rewrite app_nil_r. split; [reflexivity|].
    split; [lia|]. by destruct p.
  - simpl. unfold deref. rewrite (Hth i) by lia. simpl.
    assert (Hw : Int32.wrap (idleThreadSize_ p + 1) = idleThreadSize_ p + 1).
    { apply Int32Facts.wrap_in_range. unfold Int32.in_range. lia. }
    rewrite Hw.
    destruct (IH (i + 1) (set_idleThreadSize_ (idleThreadSize_ p + 1) p)
                (tr ++ [thread_start i])) as (p' & Hl & Hidle & Hp').
    { intros k Hk. simpl. apply Hth. lia. }
    { simpl. lia. }
    { simpl. lia. }
    exists p'. unfold Thread.start. cbn [Thread.threadId_].
    rewrite Hl. cbn [idleThreadSize_ set_idleThreadSize_] in Hidle.
    split; [|split; [lia|exact Hp']].
    rewrite (seqZ_cons i) by lia. rewrite fmap_cons, <- app_assoc. simpl.
    replace (Z.succ i) with (i + 1) by lia.
    replace (Z.pred (Z.of_nat (S n))) with (Z.of_nat n) by lia.
    reflexivity.
Qed.

(** X7. [start(n)] on the first pool of a program (no [Thread] made yet),
    with [0 <= n <= INT32_MAX]: the pool is running, [initThreadSize_]
    and [curThreadSize_] are [n], the thread map holds exactly the ids
    [0 .. n-1], each of these threads has been started once, in id
    order, and each has been counted idle. *)
Theorem start_first_pool {World : Type} (s : State World) (n : Z) :
  generateId_ s = 0 ->
  threads_ (pool s) = ∅ ->
  0 <= n <= Int32.INT32_MAX ->
  Int32.INT32_MIN <= idleThreadSize_ (pool s) ->
  idleThreadSize_ (pool s) + n <= Int32.INT32_MAX ->
  exists s',
    start n s = Done s' /\
    isPoolRunning_ (pool s') = true /\
    initThreadSize_ (pool s') = n /\
    curThreadSize_ (pool s') = n /\
    idleThreadSize_ (pool s') = idleThreadSize_ (pool s) + n /\
    generateId_ s' = n /\
    (forall k, threads_ (pool s') !! k
               = if decide (0 <= k < n) then Some (Thread.mk k) else None) /\
    trace s' = trace s ++ (thread_start <$> seqZ 0 n) /\
    taskQue_ (pool s') = taskQue_ (pool s).
Proof.
  intros Hg Hempty Hn Hmin Hmax. unfold start.
  destruct (Z.ltb_spec n 0); [lia|]. simpl.
  rewrite Int32Facts.to_size_t_nonneg by lia. rewrite Hg, Hempty.
  destruct (start_create_spec (Z.to_nat n) 0 ∅) as (m' & Hc & Hm');
    [lia|lia|intros; apply lookup_empty|].
  rewrite Z2Nat.id in Hc, Hm' by lia. rewrite Hc. simpl.
  match goal with |- context [start_launch _ 0 ?p ?tr] =>
    destruct (start_launch_spec (Z.to_nat n) 0 p tr) as (p' & Hl & Hidle & Hp')
  end.
  { intros k Hk. simpl. rewrite Hm'. rewrite Z2Nat.id in Hk by lia.
    destruct (decide _); [reflexivity|lia]. }
  { simpl. lia. }
  { simpl. lia. }
  rewrite Z2Nat.id in Hl, Hidle by lia. rewrite Hl. simpl in *.
  eexists. split; [reflexivity|]. simpl. rewrite Hp'. simpl.
  repeat split; auto.
Qed.

Lemma start_first_pool_witness :
  exists s' : State unit,
    start 3 (boot tt) = Done s' /\
    curThreadSize_ (pool s') = 3 /\
    idleThreadSize_ (pool s') = 3 /\
    threads_ (pool s') !! 2 = Some (Thread.mk 2) /\
    threads_ (pool s') !! 3 = None.
Proof.
  destruct (start_first_pool (boot tt) 3)
    as (s' & Hs & _ & _ & Hcur & Hidle & _ & Hth & _).
  - reflexivity.
  - reflexivity.
  - unfold Int32.INT32_MAX. lia.
  - vm_compute. discriminate.
  - vm_compute. discriminate.
  - exists s'. split; [exact Hs|]. split; [exact Hcur|].
    split; [exact Hidle|]. rewrite !Hth. split; reflexivity.
Defined.

Lemma start_create_no_zero n : forall g m g' m',
  0 < g -> m !! 0 = None ->
  start_create n g m = Done (g', m') -> m' !! 0 = None.
Proof.
  induction n as [|n IH]; intros g m g' m' Hg Hm; simpl.
  - by intros [= <- <-].
  - unfold new_thread, Thread.init.
    destruct (g =? Int32.INT32_MAX); [discriminate|]. simpl.
    apply IH; [lia|]. unfold emplace, Thread.getId. simpl.
    destruct (m !! g); [exact Hm|]. by rewrite lookup_insert_ne by lia.
Qed.

Lemma start_create_not_Blocks n : forall g m, start_create n g m <> Blocks.
Proof.
  induction n as [|n IH]; intros g m; simpl; [discriminate|].
  unfold new_thread, Thread.init.
  destruct (g =? Int32.INT32_MAX); [discriminate|]. simpl. apply IH.
Qed.

(** X8. [start] looks its threads up under the keys [0 .. n-1], whatever
    ids the threads got.  Once [generateId_] has moved off [0] (a second
    pool in the program, or a pool that has grown before [start]) and no
    thread sits under key [0], [start(n)] with [n >= 1] dereferences the
    null pointer that [threads_[0]] creates. *)
Theorem start_ids_not_from_zero {World : Type} (s : State World) (n : Z) :
  0 < generateId_ s ->
  threads_ (pool s) !! 0 = None ->
  1 <= n <= Int32.INT32_MAX ->
  start n s = Undefined.
Proof.
  intros Hg Hzero Hn. unfold start.
  destruct (Z.ltb_spec n 0); [lia|]. simpl.
  rewrite Int32Facts.to_size_t_nonneg by lia.
  destruct (Z.to_nat n) as [|k] eqn:Hk; [lia|].
  destruct (start_create (S k) (generateId_ s) (threads_ (pool s)))
    as [[g' m']| |] eqn:Hc; [| |reflexivity].
  - apply start_create_no_zero in Hc; [|exact Hg|exact Hzero].
    simpl. unfold deref. simpl. rewrite Hc. reflexivity.
  - by apply start_create_not_Blocks in Hc.
Qed.

Lemma start_ids_not_from_zero_witness :
  start 2 (mkState ThreadPool.init 2 [] [] tt []) = Undefined.
Proof.
  apply (start_ids_not_from_zero (mkState ThreadPool.init 2 [] [] tt []) 2).
  - simpl. lia.
  - reflexivity.
  - unfold Int32.INT32_MAX. lia.
Defined.

(** ** ThreadPool: what submitTask needs from its argument *)

Lemma submitTask_grow_not_Blocks {World : Type} (s : State World) :
  submitTask_grow s <> Blocks.
Proof.
  unfold submitTask_grow, new_thread, Thread.init. simpl.
  destruct (generateId_ s =? Int32.INT32_MAX); [discriminate|]. simpl.
  unfold deref. destruct (_ !! _); discriminate.
Qed.

(** X9. [submitTask] does not test its argument: with room in the queue,
    a null task pointer is pushed and then dereferenced for
    [setResult]. *)
Theorem submitTask_null_task {World : Type} (s : State World)
    (woken : option cv_status) :
  Z.of_nat (length (taskQue_ (pool s)))
    < Int32.to_size_t (taskQueMaxThreshold_ (pool s)) ->
  submitTask None woken s = Undefined.
Proof.
  intros Hroom. unfold submitTask, wait_for.
  destruct (Z.ltb_spec (Z.of_nat (length (taskQue_ (pool s))))
              (Int32.to_size_t (taskQueMaxThreshold_ (pool s)))); [|lia].
  simpl. destruct (submitTask_grows _).
  - match goal with |- context [submitTask_grow ?x] =>
      pose proof (submitTask_grow_not_Blocks x) as Hnb;
      destruct (submitTask_grow x) end; [reflexivity|contradiction|reflexivity].
  - reflexivity.
Qed.

Lemma submitTask_null_task_witness :
  submitTask None None (boot tt) = Undefined.
Proof.
  apply (submitTask_null_task (boot tt) None). vm_compute. reflexivity.
Defined.

(** ** ThreadPool: every queued task carries a valid handle *)

Lemma has_valid_handle_mono {World : Type} (s s' : State World) sp :
  (forall l tk, tasks s !! l = Some tk ->
     exists tk', tasks s' !! l = Some tk' /\
       (Task.result_ tk' = Task.result_ tk \/
        exists res r, Task.result_ tk' = Some res /\
          results s' !! res = Some r /\ Result.isValid_ r = true)) ->
  (forall res r, results s !! res = Some r ->
     exists r', results s' !! res = Some r' /\
                Result.isValid_ r' = Result.isValid_ r) ->
  has_valid_handle s sp -> has_valid_handle s' sp.
Proof.
  intros Htasks Hresults (l & tk & res & r & -> & Htk & Hres & Hr & Hvalid).
  destruct (Htasks l tk Htk) as (tk' & Htk' & [Hsame|(res' & r' & H1 & H2 & H3)]).
  - destruct (Hresults res r Hr) as (r' & Hr' & Hv).
    exists l, tk', res, r'. repeat split; auto; congruence.
  - exists l, tk', res', r'. auto.
Qed.

Lemma has_valid_handle_same {World : Type} (s s' : State World) sp :
  tasks s' = tasks s -> results s' = results s ->
  has_valid_handle s sp -> has_valid_handle s' sp.
Proof.
  intros Ht Hr (l & tk & res & r & H). exists l, tk, res, r.
  rewrite Ht, Hr. exact H.
Qed.

Lemma start_stores {World : Type} (s s' : State World) n :
  start n s = Done s' -> tasks s' = tasks s /\ results s' = results s.
Proof.
  unfold start. destruct (n <? 0); [discriminate|]. intros H.
  apply bind_Done in H as ([g m] & _ & H).
  apply bind_Done in H as ([p tr] & _ & [= <-]). auto.
Qed.

Lemma call_queue_ready {World : Type} (c : Call) (s s' : State World) :
  queue_ready s -> call c s = Done s' -> queue_ready s'.
Proof.
  unfold queue_ready. intros Hq.
  destruct c as [mode|n|n|n|body|sp woken|now status w| |]; simpl.
  - intros [= <-]. unfold on_pool, setMode.
    destruct (checkRunningState _); simpl;
      (eapply Forall_impl; [exact Hq|]); intros e;
      by apply has_valid_handle_same.
  - intros [= <-]. unfold on_pool, setTaskQueMaxThreshold.
    destruct (checkRunningState _); [|destruct (_ || _)]; simpl;
      (eapply Forall_impl; [exact Hq|]); intros e;
      by apply has_valid_handle_same.
  - intros [= <-]. unfold on_pool, setThreadSizeThreshold.
    destruct (checkRunningState _); [|destruct (negb _); [|destruct (_ || _)]];
      simpl; (eapply Forall_impl; [exact Hq|]); intros e;
      by apply has_valid_handle_same.
  - intros H. destruct (start_queue s s' n H) as (-> & _).
    destruct (start_stores s s' n H) as [Ht Hr].
    eapply Forall_impl; [exact Hq|]. intros e.
    by apply has_valid_handle_same.
  - intros [= <-]. simpl. eapply Forall_impl; [exact Hq|]. intros e.
    apply has_valid_handle_mono; simpl.
    + intros l tk Hl. exists tk. split; [|by left].
      rewrite lookup_app_l; [exact Hl|]. by eapply lookup_lt_Some.
    + eauto.
  - intros H. apply bind_Done in H as ([res s1] & Hsub & [= <-]).
    destruct (Z.ltb_spec (Z.of_nat (length (taskQue_ (pool s))))
                (Int32.to_size_t (taskQueMaxThreshold_ (pool s)))) as [Hroom|Hfull].
    + destruct (submitTask_with_room s sp woken res s1 Hroom Hsub)
        as (s2 & l & tk & Hgrow & -> & Htk & -> & ->). simpl.
      assert (Hs2 : taskQue_ (pool s2) = taskQue_ (pool s) ++ [Some l] /\
                    tasks s2 = tasks s /\ results s2 = results s).
      { destruct (submitTask_grows _).
        - apply submitTask_grow_Done in Hgrow
            as (th & _ & _ & -> & _ & -> & -> & _). auto.
        - injection Hgrow as <-. auto. }
      destruct Hs2 as (-> & Ht2 & Hr2). rewrite Ht2 in *. rewrite Hr2.
      assert (Hnew : (results s ++ [Result.init true]) !! length (results s)
                     = Some (Result.init true)).
      { rewrite lookup_app_r by lia. by rewrite Nat.sub_diag. }
      apply Forall_app. split.
      * eapply Forall_impl; [exact Hq|]. intros e.
        apply has_valid_handle_mono; simpl.
        -- intros l' tk' Hl'. destruct (decide (l = l')) as [<-|Hne].
           ++ eexists. rewrite list_lookup_insert_eq by (by eapply lookup_lt_Some).
              split; [reflexivity|]. right. simpl. eauto.
           ++ exists tk'. rewrite list_lookup_insert_ne by exact Hne. auto.
        -- intros res' r Hres. exists r. split; [|reflexivity].
           rewrite lookup_app_l; [exact Hres|]. by eapply lookup_lt_Some.
      * apply Forall_singleton.
        exists l, (Task.setResult (Some (length (results s))) tk),
          (length (results s)), (Result.init true). simpl.
        rewrite list_lookup_insert_eq by (by eapply lookup_lt_Some). auto.
    + unfold submitTask, wait_for in Hsub.
      destruct (Z.ltb_spec (Z.of_nat (length (taskQue_ (pool s))))
                  (Int32.to_size_t (taskQueMaxThreshold_ (pool s)))); [lia|].
      destruct woken as [[|]|]; try discriminate.
      simpl in Hsub. injection Hsub as _ <-. simpl.
      eapply Forall_impl; [exact Hq|]. intros e.
      apply has_valid_handle_mono; simpl; [eauto|].
      intros res' r Hres. exists r. split; [|reflexivity].
      rewrite lookup_app_l; [exact Hres|]. by eapply lookup_lt_Some.
  - intros H. apply bind_Done in H as ([w' s1] & Hstep & [= <-]).
    unfold threadFunc in Hstep. destruct (at_ w) as [| | | |task|].
    + by injection Hstep as _ <-.
    + destruct (taskQue_ (pool s)) as [|task rest] eqn:Hqs.
      * destruct (isPoolRunning_ (pool s)); simpl in Hstep.
        -- destruct (PoolMode_eqb _ _); injection Hstep as _ <-; by rewrite Hqs.
        -- injection Hstep as _ <-. simpl. rewrite Hqs. constructor.
      * injection Hstep as _ <-. apply Forall_cons in Hq as [_ Hq].
        unfold threadFunc_pop. simpl.
        destruct (Z.of_nat (length rest) >? 0); simpl;
          (eapply Forall_impl; [exact Hq|]); intros e;
          by apply has_valid_handle_same.
    + destruct status; [by injection Hstep as _ <-|].
      destruct (_ && _); injection Hstep as _ <-; [|exact Hq]. simpl.
      eapply Forall_impl; [exact Hq|]. intros e. by apply has_valid_handle_same.
    + by injection Hstep as _ <-.
    + apply bind_Done in Hstep as (s2 & Hexec & [= _ <-]). simpl.
      destruct task as [l|].
      * destruct (tasks s !! l) as [tk|]; [|discriminate].
        apply bind_Done in Hexec as ([rs wd] & Hexec & [= <-]). simpl.
        apply Task_exec_touches_one in Hexec as (_ & _ & Hvalid).
        eapply Forall_impl; [exact Hq|]. intros e.
        apply has_valid_handle_mono; simpl; eauto.
      * injection Hexec as <-. exact Hq.
    + discriminate.
  - intros [= <-]. simpl. eapply Forall_impl; [exact Hq|]. intros e.
    by apply has_valid_handle_same.
  - unfold destructor_wait. destruct (_ =? _); [|discriminate].
    by intros [= <-].
Qed.

(** X10. After any history from a freshly constructed pool, every entry
    of the queue is a non-null task with a valid handle attached: the
    worker's [task != nullptr] test never fails on a queued task and
    [exec] always has a handle to publish into. *)
Theorem queue_entries_have_handles {World : Type} (w0 : World) (cs : list Call)
    (s : State World) :
  run cs (boot w0) = Some s ->
  forall sp, sp ∈ taskQue_ (pool s) ->
    exists l tk res r,
      sp = Some l /\ tasks s !! l = Some tk /\
      Task.result_ tk = Some res /\
      results s !! res = Some r /\ Result.isValid_ r = true.
Proof.
  assert (Hgen : forall s0 : State World,
            queue_ready s0 -> run cs s0 = Some s -> queue_ready s).
  { induction cs as [|c cs IH]; intros s0 Hinv; simpl.
    - intros [= <-]. exact Hinv.
    - destruct (call c s0) as [s1| |] eqn:Hc; [| |discriminate].
      + apply IH. eapply call_queue_ready; eauto.
      + apply IH. exact Hinv. }
  intros Hrun sp Hin.
  assert (Hready : queue_ready s).
  { apply (Hgen (boot w0)); [constructor|exact Hrun]. }
  unfold queue_ready in Hready. rewrite Forall_forall in Hready.
  exact (Hready sp Hin).
Qed.

Lemma queue_entries_have_handles_witness :
  exists s : State nat,
    run [call_make_shared_Task (fun n => (Any.of_data n, S n));
         call_submitTask (Some 0%nat) None] (boot 0%nat) = Some s /\
    exists l tk res r,
      Some 0%nat = Some l /\ tasks s !! l = Some tk /\
      Task.result_ tk = Some res /\
      results s !! res = Some r /\ Result.isValid_ r = true.
Proof.
  eexists. split; [vm_compute; reflexivity|].
  eapply (queue_entries_have_handles 0%nat
            [call_make_shared_Task (fun n => (Any.of_data n, S n));
             call_submitTask (Some 0%nat) None]).
  - vm_compute. reflexivity.
  - apply list_elem_of_here.
Defined.

(** ** ThreadPool: submitting one task twice *)

Lemma submitTask_with_room_stores {World : Type} (s s' : State World)
    sp woken res :
  Z.of_nat (length (taskQue_ (pool s)))
    < Int32.to_size_t (taskQueMaxThreshold_ (pool s)) ->
  submitTask sp woken s = Done (res, s') ->
  exists l tk,
    sp = Some l /\ tasks s !! l = Some tk /\
    res = length (results s) /\
    results s' = results s ++ [Result.init true] /\
    tasks s' = <[l := Task.setResult (Some res) tk]> (tasks s) /\
    world s' = world s.
Proof.
  intros Hroom Hsub.
  destruct (submitTask_with_room s sp woken res s' Hroom Hsub)
    as (s2 & l & tk & Hgrow & -> & Htk & -> & ->). simpl.
  assert (Hs2 : tasks s2 = tasks s /\ results s2 = results s /\ world s2 = world s).
  { destruct (submitTask_grows _).
    - apply submitTask_grow_Done in Hgrow
        as (th & _ & _ & _ & _ & -> & -> & -> & _). auto.
    - injection Hgrow as <-. auto. }
  destruct Hs2 as (Ht & Hr & Hw). rewrite Ht in *. rewrite Hr, Hw.
  exists l, tk. repeat split; auto.
Qed.

(** X11. [setResult] overwrites the task's handle.  When the same task
    object is submitted twice (with room both times), the task points to
    the second handle only; the first handle is still as constructed,
    and no execution of the task changes that: a [get] on the first
    handle blocks. *)
Theorem submitTask_twice_orphans_first {World : Type} (s s1 s2 : State World)
    (l : loc) woken1 woken2 (res1 res2 : loc) :
  Z.of_nat (length (taskQue_ (pool s)))
    < Int32.to_size_t (taskQueMaxThreshold_ (pool s)) ->
  submitTask (Some l) woken1 s = Done (res1, s1) ->
  Z.of_nat (length (taskQue_ (pool s1)))
    < Int32.to_size_t (taskQueMaxThreshold_ (pool s1)) ->
  submitTask (Some l) woken2 s1 = Done (res2, s2) ->
  res2 = S res1 /\
  results s2 !! res1 = Some (Result.init true) /\
  exists tk2,
    tasks s2 !! l = Some tk2 /\
    Task.result_ tk2 = Some res2 /\
    forall rs w rs' w',
      rs !! res1 = Some (Result.init true) ->
      Task.exec tk2 rs w = Done (rs', w') ->
      Result.get_at res1 rs' = Blocks.
Proof.
  intros Hroom1 Hsub1 Hroom2 Hsub2.
  destruct (submitTask_with_room_stores s s1 _ _ _ Hroom1 Hsub1)
    as (l1 & tk & [= <-] & Htk & -> & Hr1 & Ht1 & _).
  destruct (submitTask_with_room_stores s1 s2 _ _ _ Hroom2 Hsub2)
    as (l2 & tk1 & [= <-] & Htk1 & -> & Hr2 & Ht2 & _).
  rewrite Hr1. rewrite length_app. simpl.
  split; [lia|]. split.
  - rewrite Hr2, Hr1. rewrite <- app_assoc.
    rewrite lookup_app_r by lia. by rewrite Nat.sub_diag.
  - eexists. rewrite Ht2.
    rewrite list_lookup_insert_eq by (by eapply lookup_lt_Some).
    split; [reflexivity|]. simpl. rewrite Hr1, length_app. simpl.
    split; [reflexivity|].
    intros rs w rs' w' Hfresh Hexec.
    apply Task_exec_touches_one in Hexec as (_ & Hframe & _). simpl in Hframe.
    unfold Result.get_at. rewrite Hframe by (intros [=]; lia).
    rewrite Hfresh. reflexivity.
Qed.

Lemma submitTask_twice_orphans_first_witness :
  exists res1 s1 res2 s2,
    submitTask (Some 0%nat) None
      (mkState ThreadPool.init 0
         [Task.init (fun n : nat => (Any.of_data n, S n))] [] 0%nat [])
      = Done (res1, s1) /\
    submitTask (Some 0%nat) None s1 = Done (res2, s2) /\
    (res2 = S res1 /\
     results s2 !! res1 = Some (Result.init true) /\
     exists tk2,
       tasks s2 !! 0%nat = Some tk2 /\
       Task.result_ tk2 = Some res2 /\
       forall rs w rs' w',
         rs !! res1 = Some (Result.init true) ->
         Task.exec tk2 rs w = Done (rs', w') ->
         Result.get_at res1 rs' = Blocks).
Proof.
  eexists _, _, _, _. split; [vm_compute; reflexivity|].
  split; [vm_compute; reflexivity|].
  eapply (submitTask_twice_orphans_first
            (mkState ThreadPool.init 0
               [Task.init (fun n : nat => (Any.of_data n, S n))] [] 0%nat [])
            _ _ 0%nat None None).
  - vm_compute. reflexivity.
  - vm_compute. reflexivity.
  - vm_compute. reflexivity.
  - vm_compute. reflexivity.
Defined.

(** ** ThreadPool: the worker at shutdown *)

(** X12. A worker at the loop head leaves [threadFunc] exactly when the
    queue is empty and [isPoolRunning_] is false, and then it erases its
    own thread, lowers [curThreadSize_] (not [idleThreadSize_]) and
    broadcasts [exitCond_].  On a non-empty queue it takes the front
    task whatever [isPoolRunning_] says: tasks queued when the destructor
    starts are still handed to workers. *)
Theorem threadFunc_loop_head_exit {World : Type} (s s' : State World)
    (now : Z) (status : cv_status) (w w' : Worker) :
  at_ w = LoopHead ->
  threadFunc now status w s = Done (w', s') ->
  (at_ w' = Returned <->
     taskQue_ (pool s) = [] /\ isPoolRunning_ (pool s) = false) /\
  (at_ w' = Returned ->
     threads_ (pool s') = delete (threadid w) (threads_ (pool s)) /\
     curThreadSize_ (pool s') = Int32.wrap (curThreadSize_ (pool s) - 1) /\
     idleThreadSize_ (pool s') = idleThreadSize_ (pool s) /\
     trace s' = trace s ++ [notify_all exitCond_]) /\
  (forall task rest, taskQue_ (pool s) = task :: rest ->
     at_ w' = Exec task /\ taskQue_ (pool s') = rest /\
     isPoolRunning_ (pool s') = isPoolRunning_ (pool s)).
Proof.
  intros Hat. unfold threadFunc. rewrite Hat.
  destruct (taskQue_ (pool s)) as [|task rest] eqn:Hq.
  - destruct (isPoolRunning_ (pool s)) eqn:Hrun; simpl.
    + destruct (PoolMode_eqb _ _); intros [= <- <-]; simpl;
        (split; [split; [discriminate|intros [_ [=]]]|]);
        (split; [discriminate|intros ? ? [=]]).
    + intros [= <- <-]. simpl. split; [by split|]. split; [auto|].
      intros ? ? [=].
  - intros [= <- <-]. simpl. split; [split; [discriminate|intros [[=] _]]|].
    split; [discriminate|]. intros task' rest' [= <- <-].
    unfold threadFunc_pop. simpl.
    destruct (Z.of_nat (length rest) >? 0); simpl; auto.
Qed.

Lemma threadFunc_loop_head_exit_witness :
  let s := mkState
             (set_taskQue_ [Some 0%nat]
                (set_taskSize_ 1 (set_curThreadSize_ 1 ThreadPool.init)))
             1 [] [] tt [] in
  exists s',
    threadFunc 0 no_timeout (mkWorker 0 0 LoopHead) s
      = Done (mkWorker 0 0 (Exec (Some 0%nat)), s') /\
    isPoolRunning_ (pool s) = false /\
    taskQue_ (pool s') = [].
Proof.
  intros s. eexists. split; [vm_compute; reflexivity|].
  split; [reflexivity|].
  destruct (threadFunc_loop_head_exit s _ 0 no_timeout (mkWorker 0 0 LoopHead)
              (mkWorker 0 0 (Exec (Some 0%nat))) eq_refl eq_refl)
    as (_ & _ & Hpop).
  destruct (Hpop (Some 0%nat) []) as (_ & Hq & _); [reflexivity|exact Hq].
Defined.

(** X13. Taking a task and finishing it leaves [idleThreadSize_] where it
    was: the pop lowers it by one and the end of the execution raises it
    by one; the worker is then back before the lock with [lastTime] set
    to the clock reading taken after the task. *)
Theorem threadFunc_idle_balanced {World : Type} (s s1 s2 : State World)
    (now1 now2 : Z) (st1 st2 : cv_status) (w w1 w2 : Worker)
    (task : option loc) (rest : list (option loc)) :
  at_ w = LoopHead ->
  taskQue_ (pool s) = task :: rest ->
  Int32.INT32_MIN < idleThreadSize_ (pool s) <= Int32.INT32_MAX ->
  threadFunc now1 st1 w s = Done (w1, s1) ->
  threadFunc now2 st2 w1 s1 = Done (w2, s2) ->
  idleThreadSize_ (pool s1) = idleThreadSize_ (pool s) - 1 /\
  idleThreadSize_ (pool s2) = idleThreadSize_ (pool s) /\
  w2 = mkWorker (threadid w) now2 Locking /\
  taskQue_ (pool s2) = rest /\
  curThreadSize_ (pool s2) = curThreadSize_ (pool s).
Proof.
  intros Hat Hq Hidle Hpop Hexec.
  assert (Hw : Int32.wrap (idleThreadSize_ (pool s) - 1)
               = idleThreadSize_ (pool s) - 1).
  { apply Int32Facts.wrap_in_range. unfold Int32.in_range. lia. }
  unfold threadFunc in Hpop. rewrite Hat, Hq in Hpop.
  injection Hpop as <- <-.
  assert (Hs1 : idleThreadSize_ (pool (threadFunc_pop task rest s))
                = idleThreadSize_ (pool s) - 1 /\
                taskQue_ (pool (threadFunc_pop task rest s)) = rest /\
                curThreadSize_ (pool (threadFunc_pop task rest s))
                = curThreadSize_ (pool s)).
  { unfold threadFunc_pop. simpl.
    destruct (Z.of_nat (length rest) >? 0); simpl; rewrite Hw; auto. }
  destruct Hs1 as (Hi1 & Hq1 & Hc1). split; [exact Hi1|].
  unfold threadFunc in Hexec. simpl in Hexec.
  apply bind_Done in Hexec as (s3 & Hrun & [= <- <-]). simpl.
  assert (Hp : pool s3 = pool (threadFunc_pop task rest s)).
  { destruct task as [l|]; [|by injection Hrun as <-].
    destruct (tasks _ !! l) as [tk|]; [|discriminate].
    apply bind_Done in Hrun as ([rs wd] & _ & [= <-]). reflexivity. }
  rewrite Hp, Hi1, Hq1, Hc1.
  replace (idleThreadSize_ (pool s) - 1 + 1) with (idleThreadSize_ (pool s)) by lia.
  rewrite Int32Facts.wrap_in_range by (unfold Int32.in_range; lia).
  auto.
Qed.

Lemma threadFunc_idle_balanced_witness :
  let s := mkState
             (set_idleThreadSize_ 2
                (set_taskQue_ [None] (set_taskSize_ 1 ThreadPool.init)))
             0 [] [] tt [] in
  exists w1 s1 w2 s2,
    threadFunc 5 no_timeout (mkWorker 7 0 LoopHead) s = Done (w1, s1) /\
    threadFunc 9 no_timeout w1 s1 = Done (w2, s2) /\
    (idleThreadSize_ (pool s1) = idleThreadSize_ (pool s) - 1 /\
     idleThreadSize_ (pool s2) = idleThreadSize_ (pool s) /\
     w2 = mkWorker 7 9 Locking /\
     taskQue_ (pool s2) = [] /\
     curThreadSize_ (pool s2) = curThreadSize_ (pool s)).
Proof.
  intros s. eexists _, _, _, _. split; [vm_compute; reflexivity|].
  split; [vm_compute; reflexivity|].
  eapply (threadFunc_idle_balanced s _ _ 5 9 no_timeout no_timeout
            (mkWorker 7 0 LoopHead) _ _ None []).
  - reflexivity.
  - reflexivity.
  - vm_compute. split; [reflexivity|discriminate].
  - vm_compute. reflexivity.
  - vm_compute. reflexivity.
Defined.

(** ** ThreadPool: the destructor *)

Lemma wake_all_spec {World : Type} (ws : list Worker) : forall (s : State World) k,
  isPoolRunning_ (pool s) = false ->
  taskQue_ (pool s) = [] ->
  Forall (fun w => at_ w = WaitCv \/ at_ w = WaitFor) ws ->
  0 <= k ->
  curThreadSize_ (pool s) = k + Z.of_nat (length ws) ->
  curThreadSize_ (pool s) <= Int32.INT32_MAX ->
  exists s',
    wake_all ws s = Done s' /\
    curThreadSize_ (pool s') = k /\
    isPoolRunning_ (pool s') = false /\
    taskQue_ (pool s') = [] /\
    idleThreadSize_ (pool s') = idleThreadSize_ (pool s) /\
    (forall id, threads_ (pool s') !! id
                = if decide (id ∈ threadid <$> ws) then None
                  else threads_ (pool s) !! id) /\
    trace s' = trace s ++ replicate (length ws) (notify_all exitCond_).
Proof.
  induction ws as [|w ws IH]; intros s k Hrun Hq Hws Hk Hcur Hmax.
  - exists s. simpl in *. rewrite app_nil_r. repeat split; auto; lia.
  - apply Forall_cons in Hws as [Hw Hws]. simpl.
    assert (Hwake : threadFunc 0 no_timeout w s = Done (goto LoopHead w, s)).
    { unfold threadFunc. destruct Hw as [-> | ->]; reflexivity. }
    rewrite Hwake. simpl. unfold threadFunc at 1. simpl. rewrite Hq, Hrun. simpl.
    assert (Hwr : Int32.wrap (curThreadSize_ (pool s) - 1)
                  = k + Z.of_nat (length ws)).
    { rewrite Int32Facts.wrap_in_range;
        unfold Int32.in_range, Int32.INT32_MIN; simpl length in Hcur; lia. }
    rewrite Hwr.
    match goal with |- context [wake_all ws ?s2] =>
      destruct (IH s2 k) as (s' & Hall & Hc & Hr & Hq' & Hi & Hth & Htr)
    end.
    { simpl. exact Hrun. }
    { simpl. exact Hq. }
    { exact Hws. }
    { exact Hk. }
    { simpl. reflexivity. }
    { simpl. simpl length in Hcur. lia. }
    exists s'. rewrite Hall. simpl in *.
    split; [reflexivity|]. split; [exact Hc|]. split; [exact Hr|].
    split; [exact Hq'|]. split; [exact Hi|]. split.
    + intros id. rewrite Hth.
      destruct (decide (id ∈ threadid <$> ws)) as [Hin|Hnin].
      * rewrite decide_True by (by right). reflexivity.
      * destruct (decide (id = threadid w)) as [->|Hne].
        -- rewrite decide_True by (by left). apply lookup_delete_eq.
        -- rewrite decide_False.
           ++ by rewrite lookup_delete_ne.
           ++ intros Hin. apply elem_of_cons in Hin as [?|?]; contradiction.
    + rewrite Htr. rewrite <- app_assoc. reflexivity.
Qed.

(** X14. The destructor gets through when the queue is empty and all
    [curThreadSize_] workers are suspended in a wait on [notEmpty_]: its
    broadcast wakes each of them, each finds the queue empty and the pool
    stopped, erases its thread and lowers [curThreadSize_]; after the
    last one the wait on [exitCond_] for [curThreadSize_ == 0] returns. *)
Theorem destructor_completes {World : Type} (s : State World) (ws : list Worker) :
  taskQue_ (pool s) = [] ->
  Forall (fun w => at_ w = WaitCv \/ at_ w = WaitFor) ws ->
  curThreadSize_ (pool s) = Z.of_nat (length ws) ->
  curThreadSize_ (pool s) <= Int32.INT32_MAX ->
  exists s',
    wake_all ws (destructor_enter s) = Done s' /\
    destructor_wait s' = Done s' /\
    curThreadSize_ (pool s') = 0 /\
    (forall w, w ∈ ws -> threads_ (pool s') !! threadid w = None) /\
    trace s' = trace s ++ [notify_all notEmpty_]
               ++ replicate (length ws) (notify_all exitCond_).
Proof.
  intros Hq Hws Hcur Hmax.
  destruct (wake_all_spec ws (destructor_enter s) 0)
    as (s' & Hall & Hc & _ & _ & _ & Hth & Htr); simpl; auto; try lia.
  exists s'. split; [exact Hall|].
  split; [unfold destructor_wait; by rewrite Hc|].
  split; [exact Hc|]. split.
  - intros w Hin. rewrite Hth. rewrite decide_True; [reflexivity|].
    apply list_elem_of_fmap. eauto.
  - rewrite Htr. simpl. rewrite <- app_assoc. reflexivity.
Qed.

Lemma destructor_completes_witness :
  exists s' : State unit,
    (exists s, start 2 (boot tt) = Done s /\
       wake_all [mkWorker 0 0 WaitCv; mkWorker 1 0 WaitCv] (destructor_enter s)
       = Done s') /\
    destructor_wait s' = Done s' /\
    curThreadSize_ (pool s') = 0 /\
    size (threads_ (pool s')) = 0%nat.
Proof.
  destruct (start 2 (boot tt)) as [s| |] eqn:Hs; try (vm_compute in Hs; discriminate).
  destruct (destructor_completes s [mkWorker 0 0 WaitCv; mkWorker 1 0 WaitCv])
    as (s' & Hall & Hwait & Hcur & _).
  - vm_compute in Hs. injection Hs as <-. reflexivity.
  - repeat constructor.
  - vm_compute in Hs. injection Hs as <-. reflexivity.
  - vm_compute in Hs. injection Hs as <-. vm_compute. discriminate.
  - exists s'. split; [eauto|]. split; [exact Hwait|]. split; [exact Hcur|].
    vm_compute in Hs. injection Hs as <-.
    vm_compute in Hall. injection Hall as <-. reflexivity.
Defined.

(** ** ThreadPool: configuration over histories *)

Lemma start_launch_config n : forall i p tr p' tr',
  start_launch n i p tr = Done (p', tr') ->
  poolMode_ p' = poolMode_ p /\
  threadSizeThreshold_ p' = threadSizeThreshold_ p /\
  isPoolRunning_ p' = isPoolRunning_ p.
Proof.
  induction n as [|n IH]; intros i p tr p' tr'; simpl.
  - intros [= <- <-]. auto.
  - intros H. apply bind_Done in H as (th & _ & H). by apply IH in H.
Qed.

Lemma call_config {World : Type} (c : Call) (s s' : State World) :
  call c s = Done s' ->
  (poolMode_ (pool s') = poolMode_ (pool s) \/
   isPoolRunning_ (pool s) = false /\ exists m, c = call_setMode m) /\
  (taskQueMaxThreshold_ (pool s') = taskQueMaxThreshold_ (pool s) \/
   isPoolRunning_ (pool s) = false /\
   1 <= taskQueMaxThreshold_ (pool s') <= TASK_MAX_THRESHOLD) /\
  (threadSizeThreshold_ (pool s') = threadSizeThreshold_ (pool s) \/
   isPoolRunning_ (pool s) = false /\ poolMode_ (pool s) = MODE_CACHED /\
   1 <= threadSizeThreshold_ (pool s') <= THREAD_MAX_THRESHOLD).
Proof.
  destruct c as [mode|n|n|n|body|sp woken|now status w| |]; simpl.
  - intros [= <-]. unfold on_pool, setMode, checkRunningState.
    destruct (isPoolRunning_ (pool s)) eqn:Hr; simpl; eauto 10.
  - intros [= <-]. unfold on_pool, setTaskQueMaxThreshold, checkRunningState.
    destruct (isPoolRunning_ (pool s)) eqn:Hr; simpl; [auto|].
    destruct (Z.leb_spec n 0), (Z.gtb_spec n TASK_MAX_THRESHOLD); simpl; auto.
    split; [auto|]. split; [|auto]. right. split; [reflexivity|lia].
  - intros [= <-]. unfold on_pool, setThreadSizeThreshold, checkRunningState.
    destruct (isPoolRunning_ (pool s)) eqn:Hr; simpl; [auto|].
    destruct (poolMode_ (pool s)) eqn:Hm; simpl; [auto|].
    destruct (Z.leb_spec n 0), (Z.gtb_spec n THREAD_MAX_THRESHOLD); simpl; auto.
    split; [auto|]. split; [auto|]. right. repeat split; auto; lia.
  - intros H. destruct (start_queue s s' n H) as (_ & _ & ->).
    unfold start in H. destruct (n <? 0); [discriminate|].
    apply bind_Done in H as ([g m] & _ & H).
    apply bind_Done in H as ([p tr] & Hl & [= <-]).
    apply start_launch_config in Hl as (Hm & Ht & _). simpl in *.
    rewrite Hm, Ht. auto.
  - intros [= <-]. simpl. auto.
  - intros H. apply bind_Done in H as ([res s1] & Hsub & [= <-]).
    destruct (Z.ltb_spec (Z.of_nat (length (taskQue_ (pool s))))
                (Int32.to_size_t (taskQueMaxThreshold_ (pool s)))) as [Hroom|Hfull].
    + destruct (submitTask_with_room s sp woken res s1 Hroom Hsub)
        as (s2 & l & tk & Hgrow & _ & _ & _ & ->). simpl.
      destruct (submitTask_grows _).
      * apply submitTask_grow_Done in Hgrow as (th & _ & _ & -> & _). simpl. auto.
      * injection Hgrow as <-. simpl. auto.
    + unfold submitTask, wait_for in Hsub.
      destruct (Z.ltb_spec (Z.of_nat (length (taskQue_ (pool s))))
                  (Int32.to_size_t (taskQueMaxThreshold_ (pool s)))); [lia|].
      destruct woken as [[|]|]; try discriminate.
      simpl in Hsub. injection Hsub as _ <-. simpl. auto.
  - intros H. apply bind_Done in H as ([w' s1] & Hstep & [= <-]).
    unfold threadFunc in Hstep. destruct (at_ w) as [| | | |task|].
    + injection Hstep as _ <-. auto.
    + destruct (taskQue_ (pool s)) as [|task rest].
      * destruct (isPoolRunning_ (pool s)); simpl in Hstep.
        -- destruct (PoolMode_eqb _ _); injection Hstep as _ <-; auto.
        -- injection Hstep as _ <-. simpl. auto.
      * injection Hstep as _ <-. unfold threadFunc_pop. simpl.
        destruct (Z.of_nat (length rest) >? 0); simpl; auto.
    + destruct status; [injection Hstep as _ <-; auto|].
      destruct (_ && _); injection Hstep as _ <-; simpl; auto.
    + injection Hstep as _ <-. auto.
    + apply bind_Done in Hstep as (s2 & Hexec & [= _ <-]). simpl.
      assert (Hp : pool s2 = pool s).
      { destruct task as [l|]; [|by injection Hexec as <-].
        destruct (tasks s !! l) as [tk|]; [|discriminate].
        apply bind_Done in Hexec as ([rs wd] & _ & [= <-]). reflexivity. }
      rewrite Hp. auto.
    + discriminate.
  - intros [= <-]. simpl. auto.
  - unfold destructor_wait. destruct (_ =? _); [|discriminate].
    intros [= <-]. auto.
Qed.

(** X15. While the pool is running, nothing that runs on it (setters,
    [start], [submitTask], worker moves, the destructor) changes the mode
    or either threshold. *)
Theorem running_config_frozen {World : Type} (c : Call) (s s' : State World) :
  isPoolRunning_ (pool s) = true ->
  call c s = Done s' ->
  poolMode_ (pool s') = poolMode_ (pool s) /\
  taskQueMaxThreshold_ (pool s') = taskQueMaxThreshold_ (pool s) /\
  threadSizeThreshold_ (pool s') = threadSizeThreshold_ (pool s).
Proof.
  intros Hrun Hcall.
  destruct (call_config c s s' Hcall)
    as ([Hm|[Hm _]] & [Hq|[Hq _]] & [Ht|[Ht _]]); auto; congruence.
Qed.

Lemma running_config_frozen_witness :
  let s := mkState (set_isPoolRunning_ true ThreadPool.init) 0 [] [] tt [] in
  exists s',
    call (call_setTaskQueMaxThreshold 5) s = Done s' /\
    (poolMode_ (pool s') = poolMode_ (pool s) /\
     taskQueMaxThreshold_ (pool s') = taskQueMaxThreshold_ (pool s) /\
     threadSizeThreshold_ (pool s') = threadSizeThreshold_ (pool s)).
Proof.
  intros s. eexists. split; [vm_compute; reflexivity|].
  eapply (running_config_frozen (call_setTaskQueMaxThreshold 5) s).
  - reflexivity.
  - vm_compute. reflexivity.
Defined.

(** X16. After any history from a freshly constructed pool both
    thresholds are within their bounds:
    [1 <= taskQueMaxThreshold_ <= INT32_MAX] and
    [1 <= threadSizeThreshold_ <= 1024]. *)
Theorem thresholds_in_range {World : Type} (w0 : World) (cs : list Call)
    (s : State World) :
  run cs (boot w0) = Some s ->
  1 <= taskQueMaxThreshold_ (pool s) <= TASK_MAX_THRESHOLD /\
  1 <= threadSizeThreshold_ (pool s) <= THREAD_MAX_THRESHOLD.
Proof.
  assert (Hgen : forall s0 : State World,
            1 <= taskQueMaxThreshold_ (pool s0) <= TASK_MAX_THRESHOLD /\
            1 <= threadSizeThreshold_ (pool s0) <= THREAD_MAX_THRESHOLD ->
            run cs s0 = Some s ->
            1 <= taskQueMaxThreshold_ (pool s) <= TASK_MAX_THRESHOLD /\
            1 <= threadSizeThreshold_ (pool s) <= THREAD_MAX_THRESHOLD).
  { induction cs as [|c cs IH]; intros s0 Hinv; simpl.
    - intros [= <-]. exact Hinv.
    - destruct (call c s0) as [s1| |] eqn:Hc; [| |discriminate].
      + apply IH. destruct Hinv as [Hq Ht].
        destruct (call_config c s0 s1 Hc)
          as (_ & [->|[_ Hq']] & [->|(_ & _ & Ht')]); auto.
      + apply IH. exact Hinv. }
  intros Hrun. apply (Hgen (boot w0)); [|exact Hrun].
  simpl. unfold TASK_MAX_THRESHOLD, THREAD_MAX_THRESHOLD, Int32.INT32_MAX. lia.
Qed.

Lemma thresholds_in_range_witness :
  exists s : State unit,
    run [call_setMode MODE_CACHED;
         call_setThreadSizeThreshold 2000;
         call_setThreadSizeThreshold 8;
         call_setTaskQueMaxThreshold 0;
         call_start 1;
         call_setTaskQueMaxThreshold 4] (boot tt) = Some s /\
    (1 <= taskQueMaxThreshold_ (pool s) <= TASK_MAX_THRESHOLD /\
     1 <= threadSizeThreshold_ (pool s) <= THREAD_MAX_THRESHOLD).
Proof.
  eexists. split; [vm_compute; reflexivity|].
  eapply (thresholds_in_range tt
            [call_setMode MODE_CACHED;
             call_setThreadSizeThreshold 2000;
             call_setThreadSizeThreshold 8;
             call_setTaskQueMaxThreshold 0;
             call_start 1;
             call_setTaskQueMaxThreshold 4]).
  vm_compute. reflexivity.
Defined.

(** ** Witnesses for the hand-over and for the thread ids *)

Lemma submit_exec_get_witness :
  let tk := Task.init (fun n : nat => (Any.of_data (n + 40)%nat, S n)) in
  let s := mkState ThreadPool.init 0 [tk] [] 2%nat [] in
  exists res s1,
    submitTask (Some 0%nat) None s = Done (res, s1) /\
    exists s2 s3 w3 results4,
      threadFunc 5 no_timeout (mkWorker 0 0 LoopHead) s1
        = Done (goto (Exec (Some 0%nat)) (mkWorker 0 0 LoopHead), s2) /\
      threadFunc 5 no_timeout (goto (Exec (Some 0%nat)) (mkWorker 0 0 LoopHead)) s2
        = Done (w3, s3) /\
      world s3 = snd (Task.run tk (world s)) /\
      Result.get_at res (results s3)
        = Done (fst (Task.run tk (world s)), results4).
Proof.
  intros tk s. eexists _, _. split; [vm_compute; reflexivity|].
  eapply (submit_exec_get s _ 0%nat tk None _ 5 no_timeout (mkWorker 0 0 LoopHead)).
  - reflexivity.
  - reflexivity.
  - vm_compute. reflexivity.
  - vm_compute. reflexivity.
  - reflexivity.
Defined.

Lemma run_generateId_fresh_witness :
  exists s : State unit,
    run [call_setMode MODE_CACHED; call_start 2;
         call_threadFunc 0 no_timeout (mkWorker 1 0 LoopHead);
         call_destructor_enter;
         call_threadFunc 0 no_timeout (mkWorker 1 0 LoopHead)] (boot tt)
      = Some s /\
    (0 <= generateId_ s /\ threads_ (pool s) !! generateId_ s = None).
Proof.
  eexists. split; [vm_compute; reflexivity|].
  eapply (run_generateId_fresh tt
            [call_setMode MODE_CACHED; call_start 2;
             call_threadFunc 0 no_timeout (mkWorker 1 0 LoopHead);
             call_destructor_enter;
             call_threadFunc 0 no_timeout (mkWorker 1 0 LoopHead)]).
  vm_compute. reflexivity.
Defined.
